(** * og-check: a shallow embedding of [src/index.ts]

    The first part holds the embedding: JavaScript strings, numbers and
    objects, then the functions of the source, callees before callers
    ([decodeHtmlEntities], [validateTags], the regular expressions and
    [parseHtml], [parseArgs], [fetchUrl], [checkUrl], [main]).  The
    second part holds the properties, the third runs them on concrete
    inputs.

    Conventions.
    - A JavaScript string is a sequence of UTF-16 code units.  The
      development covers the code units 0..255, one [ascii] each, so
      [String.length] is [.length] and every character class below lists
      the members it has in that range.
    - A plain object used as a dictionary ([OgTags], the [args] record)
      is a [gmap string _]; assignment goes through [obj_set], which
      keeps the one exotic key of ordinary objects.
    - Code that may throw returns a [result]. *)

From Stdlib Require Import ZArith Ascii String List Bool Lia DecimalString.
From stdpp Require Import base gmap strings list.
From Equations Require Import Equations.

Local Open Scope Z_scope.
Local Open Scope nat_scope.

(** ** Results of code that may throw *)

(** An error object: its class, [message] and, for system errors,
    [code]. *)
Record exn : Type := mkExn {
  name : string;
  message : string;
  code : option string;
}.

Definition TypeError (msg : string) : exn :=
  {| name := "TypeError"; message := msg; code := None |}.
Definition Error (msg : string) : exn :=
  {| name := "Error"; message := msg; code := None |}.

#[global] Instance exn_eq_dec : EqDecision exn.
Proof. solve_decision. Defined.

Inductive result (A : Type) : Type :=
  | Ok (a : A)
  | Throw (e : exn).
Arguments Ok {A} a.
Arguments Throw {A} e.

#[global] Instance result_eq_dec {A : Type} `{EqDecision A} : EqDecision (result A).
Proof. solve_decision. Defined.

#[global] Instance result_ret : MRet result := fun A a => Ok a.
#[global] Instance result_bind : MBind result := fun A B k r =>
  match r with
  | Ok a => k a
  | Throw e => Throw e
  end.

(** ** JavaScript strings *)

Module JS.

(** [s.startsWith(p)] *)
Definition startsWith (s p : string) : bool := String.prefix p s.

(** [s.slice(n)] for [0 <= n] *)
Fixpoint slice_from (n : nat) (s : string) : string :=
  match n, s with
  | O, _ => s
  | S k, EmptyString => EmptyString
  | S k, String _ s' => slice_from k s'
  end.

(** [s.slice(0, n)] for [0 <= n] *)
Fixpoint take (n : nat) (s : string) : string :=
  match n, s with
  | O, _ => EmptyString
  | S k, EmptyString => EmptyString
  | S k, String c s' => String c (take k s')
  end.

(** [s.slice(a, b)] for [0 <= a] and [0 <= b] *)
Definition slice (a b : nat) (s : string) : string :=
  take (b - a) (slice_from a s).

(** [s.indexOf(c)] for a one-character needle; [None] is [-1]. *)
Fixpoint indexOf (c : ascii) (s : string) : option nat :=
  match s with
  | EmptyString => None
  | String d s' =>
      if Ascii.eqb d c then Some O
      else match indexOf c s' with
           | Some i => Some (S i)
           | None => None
           end
  end.

(** [s.replace(/pat/g, rep)] for a pattern that is a literal, non-empty
    text and a replacement without [$]: matches are taken left to
    right and do not overlap; [skip] counts the characters of the
    current match that are still to be dropped. *)
Fixpoint replaceAll_go (pat rep : string) (skip : nat) (s : string) : string :=
  match s with
  | EmptyString => EmptyString
  | String c s' =>
      match skip with
      | S k => replaceAll_go pat rep k s'
      | O =>
          if String.prefix pat s
          then rep +:+ replaceAll_go pat rep (String.length pat - 1) s'
          else String c (replaceAll_go pat rep O s')
      end
  end.

Definition replaceAll (pat rep : string) (s : string) : string :=
  replaceAll_go pat rep O s.

(** White space and line terminators ([\s], [trim], [parseInt]):
    TAB, LF, VT, FF, CR, SP and NBSP are the ones below 256. *)
Definition isWhiteSpace (c : ascii) : bool :=
  let n := nat_of_ascii c in
  ((9 <=? n) && (n <=? 13)) || (n =? 32) || (n =? 160).

Fixpoint trimStart (s : string) : string :=
  match s with
  | EmptyString => EmptyString
  | String c s' => if isWhiteSpace c then trimStart s' else s
  end.

(** [trimEnd] drops a character when it is white space and everything
    after it has been dropped. *)
Fixpoint trimEnd (s : string) : string :=
  match s with
  | EmptyString => EmptyString
  | String c s' =>
      match trimEnd s' with
      | EmptyString => if isWhiteSpace c then EmptyString else String c EmptyString
      | t => String c t
      end
  end.

(** [s.trim()] *)
Definition trim (s : string) : string := trimEnd (trimStart s).

(** [s.toLowerCase()]: A-Z, and the Latin-1 capitals
    U+00C0..U+00DE except the multiplication sign U+00D7. *)
Definition lowerChar (c : ascii) : ascii :=
  let n := nat_of_ascii c in
  if ((65 <=? n) && (n <=? 90))
     || ((192 <=? n) && (n <=? 222) && negb (n =? 215))
  then ascii_of_nat (n + 32) else c.

Fixpoint toLowerCase (s : string) : string :=
  match s with
  | EmptyString => EmptyString
  | String c s' => String (lowerChar c) (toLowerCase s')
  end.

(** *** Numbers

    [parseInt] yields NaN or (the double nearest to) an integer.  The
    program only compares that number with 200, which is a double, and
    rounding to the nearest double is monotone, so the comparison on
    the integer is the comparison on the double.  [None] is NaN. *)
Definition number : Type := option Z.

(** [x < y] on numbers: false as soon as one side is NaN. *)
Definition lt (x : number) (y : Z) : bool :=
  match x with
  | Some n => (n <? y)%Z
  | None => false
  end.

Definition digitValue (radix : Z) (c : ascii) : option Z :=
  let n := Z.of_nat (nat_of_ascii c) in
  let v :=
    if ((48 <=? n) && (n <=? 57))%Z then Some (n - 48)%Z
    else if ((97 <=? n) && (n <=? 122))%Z then Some (n - 87)%Z
    else if ((65 <=? n) && (n <=? 90))%Z then Some (n - 55)%Z
    else None in
  match v with
  | Some d => if (d <? radix)%Z then Some d else None
  | None => None
  end.

(** The longest prefix of radix-[radix] digits, read as an integer;
    [acc] is [None] until a digit has been seen. *)
Fixpoint parseDigits (radix : Z) (acc : option Z) (s : string) : option Z :=
  match s with
  | EmptyString => acc
  | String c s' =>
      match digitValue radix c with
      | Some d =>
          parseDigits radix
            (Some (match acc with Some a => a * radix + d | None => d end)%Z) s'
      | None => acc
      end
  end.

(** [parseInt(s)] without a radix: leading white space, an optional
    sign, an optional [0x]/[0X] prefix that switches to radix 16. *)
Definition parseInt (s : string) : number :=
  let s1 := trimStart s in
  let '(sign, s2) :=
    match s1 with
    | String "-" r => ((-1)%Z, r)
    | String "+" r => (1%Z, r)
    | _ => (1%Z, s1)
    end in
  let '(radix, s3) :=
    match s2 with
    | String "0" (String "x" r) => (16%Z, r)
    | String "0" (String "X" r) => (16%Z, r)
    | _ => (10%Z, s2)
    end in
  match parseDigits radix None s3 with
  | Some n => Some (sign * n)%Z
  | None => None
  end.

(** [String(n)] for a natural number, as in [`${s.length}`]. *)
Definition natToString (n : nat) : string :=
  NilEmpty.string_of_uint (Nat.to_uint n).

(** [`${x}`] for a number.  Exact for integers up to 2^53 in absolute
    value; above that JavaScript prints the nearest double. *)
Definition numberToString (x : number) : string :=
  match x with
  | None => "NaN"
  | Some n => NilZero.string_of_int (Z.to_int n)
  end.

(** *** Objects used as dictionaries

    [o[k] = v] on an ordinary object whose prototype is
    [Object.prototype]: the key [__proto__] is an accessor there, and
    its setter ignores a value that is neither an object nor null. *)
Definition obj_set {V : Type} (k : string) (v : V) (o : gmap string V)
  : gmap string V :=
  if String.eqb k "__proto__" then o else <[k := v]> o.

(** [!!x] for an optional string: defined and not empty. *)
Definition truthy (o : option string) : bool :=
  match o with
  | Some EmptyString => false
  | Some _ => true
  | None => false
  end.

(** [x || d] for an optional string [x] and a string [d]. *)
Definition orElse (o : option string) (d : string) : string :=
  match o with
  | Some EmptyString => d
  | Some s => s
  | None => d
  end.

End JS.

(** ** decodeHtmlEntities *)

Definition decodeHtmlEntities (text : string) : string :=
  let t := JS.replaceAll "&amp;" "&" text in
  let t := JS.replaceAll "&lt;" "<" t in
  let t := JS.replaceAll "&gt;" ">" t in
  let t := JS.replaceAll "&quot;" (String (ascii_of_nat 34) EmptyString) t in
  let t := JS.replaceAll "&#39;" "'" t in
  let t := JS.replaceAll "&#x27;" "'" t in
  let t := JS.replaceAll "&#x2F;" "/" t in
  JS.replaceAll "&nbsp;" " " t.

(** The entities of the chain, in its order, each with its character. *)
Definition entities : list (string * string) :=
  [("&amp;", "&"); ("&lt;", "<"); ("&gt;", ">");
   ("&quot;", String (ascii_of_nat 34) EmptyString);
   ("&#39;", "'"); ("&#x27;", "'"); ("&#x2F;", "/"); ("&nbsp;", " ")].

(** An entity with its ampersand encoded once more: [&amp;lt;] for
    [&lt;]. *)
Definition doubleEncoded (entity : string) : string :=
  "&amp;" +:+ JS.slice_from 1 entity.

(** ** The data model *)

(** [OgTags]: an object from tag names to strings. *)
Abbreviation OgTags := (gmap string string).

Inductive Severity : Type := error | warning | info.

#[global] Instance Severity_eq_dec : EqDecision Severity.
Proof. solve_decision. Defined.

Record OgIssue : Type := mkIssue {
  tag : string;
  problem : string;
  fix_ : string;   (* the field [fix]; the name is reserved here *)
  severity : Severity;
}.

#[global] Instance OgIssue_eq_dec : EqDecision OgIssue.
Proof. solve_decision. Defined.

(** [issues.push(x)] *)
Definition push {A : Type} (xs : list A) (x : A) : list A := xs ++ [x].

(** [tags[k]] where the code has just checked that it is truthy. *)
Definition get (tags : OgTags) (k : string) : string := default "" (tags !! k).

(** The double quote and the line feed, which a string literal of this
    file cannot hold, and the two shapes of snippet the fixes are made of:
    [name="value"] and [<meta kind="key" content="value" />]. *)
Definition dq : string := String (ascii_of_nat 34) EmptyString.
Definition nl : string := String (ascii_of_nat 10) EmptyString.

Definition attr (name value : string) : string :=
  name +:+ "=" +:+ dq +:+ value +:+ dq.

Definition metaTag (kind key content : string) : string :=
  "<meta " +:+ attr kind key +:+ " " +:+ attr "content" content +:+ " />".

(** ** The platform

    The WHATWG [URL] class and the network are Node's, not the
    program's: the program is parameterised by them. *)

Record URL : Type := mkURL {
  href : string;
  protocol : string;
  hostname : string;
  port : string;
  pathname : string;
  search : string;
}.

(** [new URL(input)] is [URL_new input None], [new URL(input, base)] is
    [URL_new input (Some base)]; [None] is the thrown [TypeError]. *)
Definition URL_ctor : Type := string -> option string -> option URL.

Definition InvalidURL : exn :=
  {| name := "TypeError"; message := "Invalid URL"; code := Some "ERR_INVALID_URL" |}.

(** ** validateTags *)

(** The issues of the rule list, in the order of the source. *)
Module Issue.

Definition missingTitle (tags : OgTags) : OgIssue := {|
  tag := "og:title";
  problem := "Missing og:title. Social platforms won't show a proper title for your link.";
  fix_ := metaTag "property" "og:title" (JS.orElse (tags !! "title") "Your Page Title");
  severity := error |}.

Definition longTitle (tags : OgTags) : OgIssue := {|
  tag := "og:title";
  problem := "og:title is " +:+ JS.natToString (String.length (get tags "og:title"))
             +:+ " chars. It'll get truncated on most platforms (keep under 60-95 chars).";
  fix_ := "Shorten your og:title to under 60 characters for best display.";
  severity := warning |}.

Definition missingDescription (tags : OgTags) : OgIssue := {|
  tag := "og:description";
  problem := "Missing og:description. Your link preview won't have a description snippet.";
  fix_ := metaTag "property" "og:description"
            (JS.orElse (tags !! "description") "A brief description of your page");
  severity := error |}.

Definition longDescription (tags : OgTags) : OgIssue := {|
  tag := "og:description";
  problem := "og:description is "
             +:+ JS.natToString (String.length (get tags "og:description"))
             +:+ " chars. Keep it under 200 for best display.";
  fix_ := "Shorten your og:description to under 200 characters.";
  severity := warning |}.

Definition missingImage : OgIssue := {|
  tag := "og:image";
  problem := "Missing og:image. Your link will have no preview image on any platform.";
  fix_ := metaTag "property" "og:image" "https://yoursite.com/og-image.png";
  severity := error |}.

(** [absolute] is [new URL(tags['og:image'], url).toString()]. *)
Definition relativeImage (absolute : string) : OgIssue := {|
  tag := "og:image";
  problem := "og:image should be an absolute URL (starting with https://). Relative URLs won't work.";
  fix_ := metaTag "property" "og:image" absolute;
  severity := error |}.

Definition missingDimensions : OgIssue := {|
  tag := "og:image:width/height";
  problem := "Missing og:image:width and og:image:height. Some platforms won't show the image without dimensions.";
  fix_ := metaTag "property" "og:image:width" "1200" +:+ nl
          +:+ metaTag "property" "og:image:height" "630";
  severity := warning |}.

Definition smallImage (w h : JS.number) : OgIssue := {|
  tag := "og:image";
  problem := "Image is " +:+ JS.numberToString w +:+ "x" +:+ JS.numberToString h
             +:+ "px. Most platforms need at least 200x200px. Facebook recommends 1200x630px.";
  fix_ := "Use an image that's at least 1200x630px for best results.";
  severity := warning |}.

Definition missingAlt : OgIssue := {|
  tag := "og:image:alt";
  problem := "Missing og:image:alt. Add alt text for accessibility.";
  fix_ := metaTag "property" "og:image:alt" "Description of the image";
  severity := info |}.

Definition missingUrl (url : string) : OgIssue := {|
  tag := "og:url";
  problem := "Missing og:url. Platforms won't know the canonical URL for your page.";
  fix_ := metaTag "property" "og:url" url;
  severity := warning |}.

Definition missingType : OgIssue := {|
  tag := "og:type";
  problem := "Missing og:type. Defaults to " +:+ dq +:+ "website" +:+ dq
             +:+ " but it's better to be explicit.";
  fix_ := metaTag "property" "og:type" "website";
  severity := info |}.

Definition missingCard : OgIssue := {|
  tag := "twitter:card";
  problem := "Missing twitter:card. Twitter won't show a rich preview without it.";
  fix_ := metaTag "name" "twitter:card" "summary_large_image";
  severity := warning |}.

Definition noTwitterTitle : OgIssue := {|
  tag := "twitter:title";
  problem := "No twitter:title or og:title. Twitter won't display a title.";
  fix_ := metaTag "name" "twitter:title" "Your Page Title";
  severity := error |}.

Definition noTwitterImage : OgIssue := {|
  tag := "twitter:image";
  problem := "No twitter:image or og:image. Twitter preview will have no image.";
  fix_ := metaTag "name" "twitter:image" "https://yoursite.com/twitter-image.png";
  severity := warning |}.

Definition missingHtmlTitle : OgIssue := {|
  tag := "title";
  problem := "Missing <title> tag. This affects SEO and browser tab display.";
  fix_ := "<title>Your Page Title</title>";
  severity := warning |}.

Definition missingMetaDescription : OgIssue := {|
  tag := "description";
  problem := "Missing meta description. Search engines use this for search result snippets.";
  fix_ := metaTag "name" "description" "A brief description";
  severity := info |}.

Definition missingCanonical (url : string) : OgIssue := {|
  tag := "canonical";
  problem := "Missing canonical URL. This helps prevent duplicate content issues.";
  fix_ := "<link " +:+ attr "rel" "canonical" +:+ " " +:+ attr "href" url +:+ " />";
  severity := info |}.

End Issue.

Section Validator.

Variable URL_new : URL_ctor.

Definition validateTags (tags : OgTags) (url : string) : result (list OgIssue) :=
  let issues : list OgIssue := [] in
  (* Required OG tags *)
  let issues :=
    if negb (JS.truthy (tags !! "og:title")) then
      push issues (Issue.missingTitle tags)
    else if 95 <? String.length (get tags "og:title") then
      push issues (Issue.longTitle tags)
    else issues in
  let issues :=
    if negb (JS.truthy (tags !! "og:description")) then
      push issues (Issue.missingDescription tags)
    else if 300 <? String.length (get tags "og:description") then
      push issues (Issue.longDescription tags)
    else issues in
  issues ←
    (if negb (JS.truthy (tags !! "og:image")) then
       Ok (push issues Issue.missingImage)
     else
       (* Check if image URL is absolute *)
       issues ←
         (if negb (JS.startsWith (get tags "og:image") "http") then
            match URL_new (get tags "og:image") (Some url) with
            | None => Throw InvalidURL
            | Some absolute => Ok (push issues (Issue.relativeImage (href absolute)))
            end
          else Ok issues);
       (* Check image dimensions *)
       let issues :=
         if negb (JS.truthy (tags !! "og:image:width"))
            || negb (JS.truthy (tags !! "og:image:height")) then
           push issues Issue.missingDimensions
         else
           let w := JS.parseInt (get tags "og:image:width") in
           let h := JS.parseInt (get tags "og:image:height") in
           if JS.lt w 200 || JS.lt h 200 then push issues (Issue.smallImage w h)
           else issues in
       (* Check alt text *)
       let issues :=
         if negb (JS.truthy (tags !! "og:image:alt")) then push issues Issue.missingAlt
         else issues in
       Ok issues);
  let issues :=
    if negb (JS.truthy (tags !! "og:url")) then push issues (Issue.missingUrl url)
    else issues in
  let issues :=
    if negb (JS.truthy (tags !! "og:type")) then push issues Issue.missingType
    else issues in
  (* Twitter Card *)
  let issues :=
    if negb (JS.truthy (tags !! "twitter:card")) then push issues Issue.missingCard
    else issues in
  let issues :=
    if negb (JS.truthy (tags !! "twitter:title")) && negb (JS.truthy (tags !! "og:title"))
    then push issues Issue.noTwitterTitle
    else issues in
  let issues :=
    if negb (JS.truthy (tags !! "twitter:image")) && negb (JS.truthy (tags !! "og:image"))
    then push issues Issue.noTwitterImage
    else issues in
  (* General HTML *)
  let issues :=
    if negb (JS.truthy (tags !! "title")) then push issues Issue.missingHtmlTitle
    else issues in
  let issues :=
    if negb (JS.truthy (tags !! "description")) then
      push issues Issue.missingMetaDescription
    else issues in
  let issues :=
    if negb (JS.truthy (tags !! "canonical")) then push issues (Issue.missingCanonical url)
    else issues in
  Ok issues.

End Validator.

(** ** Regular expressions

    The patterns of [parseHtml] use literal characters, character
    classes, [\s], greedy and lazy repetition of one character, an
    optional character, alternation and one capture group, all under the
    [i] flag.  The matcher is the backtracking matcher of the language
    definition, written with continuations as it is there. *)

Module Regex.

(** What matches one character. *)
Inductive atom : Type :=
  | Lit (c : ascii)          (* the character itself *)
  | AnyOf (cs : string)      (* [...] *)
  | NoneOf (cs : string)     (* [^...] *)
  | Space.                   (* \s *)

Inductive regex : Type :=
  | Empty
  | Atom (a : atom)
  | Seq (r1 r2 : regex)
  | Alt (r1 r2 : regex)                        (* r1|r2 *)
  | Star (greedy : bool) (min : nat) (a : atom) (* a*, a+, a*?, a+? *)
  | Opt (a : atom)                             (* a? *)
  | Group (i : nat) (r : regex).               (* the i-th capture group *)

(** Canonicalisation under the [i] flag: the upper case of a
    character when that is one code unit.  Below 256 that moves a-z
    and U+00E0..U+00FE (but not the division sign U+00F7); the upper
    cases of U+00B5 and U+00FF lie above 255, where nothing of this
    range joins them. *)
Definition canonicalize (c : ascii) : ascii :=
  let n := nat_of_ascii c in
  if ((97 <=? n) && (n <=? 122))
     || ((224 <=? n) && (n <=? 254) && negb (n =? 247))
  then ascii_of_nat (n - 32) else c.

Definition sameChar (ignoreCase : bool) (c d : ascii) : bool :=
  if ignoreCase then Ascii.eqb (canonicalize c) (canonicalize d)
  else Ascii.eqb c d.

Fixpoint member (ignoreCase : bool) (c : ascii) (cs : string) : bool :=
  match cs with
  | EmptyString => false
  | String d cs' => sameChar ignoreCase d c || member ignoreCase c cs'
  end.

Definition atomMatches (ignoreCase : bool) (a : atom) (c : ascii) : bool :=
  match a with
  | Lit d => sameChar ignoreCase d c
  | AnyOf cs => member ignoreCase c cs
  | NoneOf cs => negb (member ignoreCase c cs)
  | Space => JS.isWhiteSpace c
  end.

(** The captures of a match: group number to captured text. *)
Abbreviation captures := (gmap nat string).

(** A match state: what is left of the input after the match, and the
    captures. *)
Definition state : Type := string * captures.

Section Matcher.

Variable ignoreCase : bool.

(** One character of the input against an atom. *)
Definition step (a : atom) (s : string) (k : string -> option state)
  : option state :=
  match s with
  | String c s' => if atomMatches ignoreCase a c then k s' else None
  | EmptyString => None
  end.

(** Repetition of an atom, at least [min] times.  Greedy: one more
    character first, the continuation when that fails.  Lazy: the
    continuation first. *)
Fixpoint star (greedy : bool) (min : nat) (a : atom) (s : string)
    (k : string -> option state) : option state :=
  match min with
  | S min' =>
      match s with
      | String c s' =>
          if atomMatches ignoreCase a c then star greedy min' a s' k else None
      | EmptyString => None
      end
  | O =>
      if greedy then
        match
          match s with
          | String c s' =>
              if atomMatches ignoreCase a c then star greedy O a s' k else None
          | EmptyString => None
          end
        with
        | Some r => Some r
        | None => k s
        end
      else
        match k s with
        | Some r => Some r
        | None =>
            match s with
            | String c s' =>
                if atomMatches ignoreCase a c then star greedy O a s' k else None
            | EmptyString => None
            end
        end
  end.

(** [run r s caps k]: match [r] at the start of [s], then continue
    with [k]; [None] is failure, which makes the caller backtrack. *)
Fixpoint run (r : regex) (s : string) (caps : captures)
    (k : string -> captures -> option state) : option state :=
  match r with
  | Empty => k s caps
  | Atom a => step a s (fun s' => k s' caps)
  | Seq r1 r2 => run r1 s caps (fun s' caps' => run r2 s' caps' k)
  | Alt r1 r2 =>
      match run r1 s caps k with
      | Some x => Some x
      | None => run r2 s caps k
      end
  | Star greedy min a => star greedy min a s (fun s' => k s' caps)
  | Opt a =>
      match step a s (fun s' => k s' caps) with
      | Some x => Some x
      | None => k s caps
      end
  | Group i r1 =>
      run r1 s caps (fun s' caps' =>
        k s' (<[i := JS.take (String.length s - String.length s') s]> caps'))
  end.

(** A match that starts at the first character of [s]. *)
Definition matchAt (r : regex) (s : string) : option state :=
  run r s ∅ (fun s' caps => Some (s', caps)).

(** [s.match(r)] without the [g] flag: the leftmost match. *)
Fixpoint search (r : regex) (s : string) : option state :=
  match matchAt r s with
  | Some x => Some x
  | None =>
      match s with
      | EmptyString => None
      | String _ s' => search r s'
      end
  end.

(** All the matches of [while ((match = r.exec(s)) !== null)] for a
    pattern with the [g] flag that needs at least one character:
    each search resumes where the previous match ended; [skip]
    counts the characters of that match still to be passed. *)
Fixpoint execAll (r : regex) (skip : nat) (s : string) : list state :=
  match s with
  | EmptyString => []
  | String _ s' =>
      match skip with
      | S n => execAll r n s'
      | O =>
          match matchAt r s with
          | Some (rest, caps) =>
              (rest, caps) :: execAll r (String.length s' - String.length rest) s'
          | None => execAll r O s'
          end
      end
  end.

End Matcher.

(** Group [i] takes part in every match of [r]: it lies on every path
    through the pattern. *)
Fixpoint sets (i : nat) (r : regex) : bool :=
  match r with
  | Group j r1 => (i =? j) || sets i r1
  | Seq r1 r2 => sets i r1 || sets i r2
  | Alt r1 r2 => sets i r1 && sets i r2
  | _ => false
  end.

(** The pattern of a literal text. *)
Fixpoint lit (s : string) : regex :=
  match s with
  | EmptyString => Empty
  | String c s' => Seq (Atom (Lit c)) (lit s')
  end.

(** [r1 r2 ... rn] *)
Definition cat (rs : list regex) : regex := foldr Seq Empty rs.

End Regex.

(** ** parseHtml *)

Module Patterns.
Import Regex.

(** In the comments of this module [Q] stands for the class of the
    two quote characters (double and single), and a capture group is
    written with spaces inside its parentheses. *)

Definition quotes : string := dq +:+ "'".

Definition ws0 : regex := Star true 0 Space.                (* \s* *)
Definition ws1 : regex := Star true 1 Space.                (* \s+ *)
Definition quote : regex := Atom (AnyOf quotes).            (* Q *)
Definition upToGt : regex := Star true 0 (NoneOf ">").      (* [^>]* *)
Definition value0 : regex := Star true 0 (NoneOf quotes).   (* [^Q]* *)
Definition value1 : regex := Star true 1 (NoneOf quotes).   (* [^Q]+ *)
Definition close : regex := cat [Opt (Lit "/"); lit ">"].    (* \/?> *)

(** [name\s*=\s*Q value Q] *)
Definition attribute (name : regex) (value : regex) : regex :=
  cat [name; ws0; lit "="; ws0; quote; value; quote].

(** [/<title[^>]*>( [^<]* )<\/title>/i] *)
Definition titleRe : regex :=
  cat [lit "<title"; upToGt; lit ">"; Group 1 (Star true 0 (NoneOf "<")); lit "</title>"].

(** [/<meta\s+( [^>]+? )\/?>/gi] *)
Definition metaRegex : regex :=
  cat [lit "<meta"; ws1; Group 1 (Star false 1 (NoneOf ">")); close].

(** [/(?:property|name)\s*=\s*Q( [^Q]+ )Q/i] *)
Definition propRe : regex :=
  attribute (Alt (lit "property") (lit "name")) (Group 1 value1).

(** [/content\s*=\s*Q( [^Q]* )Q/i] *)
Definition contentRe : regex :=
  attribute (lit "content") (Group 1 value0).

(** [/<meta\s+[^>]*name\s*=\s*QdescriptionQ[^>]*content\s*=\s*Q( [^Q]* )Q[^>]*\/?>/i] *)
Definition descRe1 : regex :=
  cat [lit "<meta"; ws1; upToGt; attribute (lit "name") (lit "description");
       upToGt; attribute (lit "content") (Group 1 value0); upToGt; close].

(** [/<meta\s+[^>]*content\s*=\s*Q( [^Q]* )Q[^>]*name\s*=\s*QdescriptionQ[^>]*\/?>/i] *)
Definition descRe2 : regex :=
  cat [lit "<meta"; ws1; upToGt; attribute (lit "content") (Group 1 value0);
       upToGt; attribute (lit "name") (lit "description"); upToGt; close].

(** [/<link\s+[^>]*rel\s*=\s*QcanonicalQ[^>]*href\s*=\s*Q( [^Q]* )Q[^>]*\/?>/i] *)
Definition canonicalRe1 : regex :=
  cat [lit "<link"; ws1; upToGt; attribute (lit "rel") (lit "canonical");
       upToGt; attribute (lit "href") (Group 1 value0); upToGt; close].

(** [/<link\s+[^>]*href\s*=\s*Q( [^Q]* )Q[^>]*rel\s*=\s*QcanonicalQ[^>]*\/?>/i] *)
Definition canonicalRe2 : regex :=
  cat [lit "<link"; ws1; upToGt; attribute (lit "href") (Group 1 value0);
       upToGt; attribute (lit "rel") (lit "canonical"); upToGt; close].

(** [/<link\s+[^>]*rel\s*=\s*Q(?:icon|shortcut icon)Q[^>]*href\s*=\s*Q( [^Q]* )Q[^>]*\/?>/i] *)
Definition faviconRe : regex :=
  cat [lit "<link"; ws1; upToGt;
       attribute (lit "rel") (Alt (lit "icon") (lit "shortcut icon"));
       upToGt; attribute (lit "href") (Group 1 value0); upToGt; close].

End Patterns.

(** [s.match(r)] for a pattern with the [i] flag and without [g]. *)
Definition match_ (s : string) (r : Regex.regex) : option Regex.state :=
  Regex.search true r s.

(** [m[i]]: the text of group [i], or [undefined]. *)
Definition group (m : Regex.state) (i : nat) : option string := m.2 !! i.

(** A method call on [m[i]], or passing it to [decodeHtmlEntities],
    which calls [replace] on it: a [TypeError] when it is [undefined]. *)
Definition defined (o : option string) : result string :=
  match o with
  | Some s => Ok s
  | None => Throw (TypeError "Cannot read properties of undefined")
  end.

(** [a || b] on match results. *)
Definition orMatch (a b : option Regex.state) : option Regex.state :=
  match a with
  | Some x => Some x
  | None => b
  end.

(** A loop whose body may throw. *)
Fixpoint forEach {A S : Type} (body : S -> A -> result S) (xs : list A) (s : S)
  : result S :=
  match xs with
  | [] => Ok s
  | x :: xs' => s' ← body s x; forEach body xs' s'
  end.

(** The body of the [while] loop over the [<meta>] elements. *)
Definition metaBody (tags : OgTags) (match' : Regex.state) : result OgTags :=
  attrs ← defined (group match' 1);
  (* Get property or name *)
  key ←
    match match_ attrs Patterns.propRe with
    | Some propMatch => k ← defined (group propMatch 1); Ok (JS.toLowerCase k)
    | None => Ok ""
    end;
  (* Get content *)
  match match_ attrs Patterns.contentRe with
  | Some contentMatch =>
      if negb (String.eqb key "") then
        c ← defined (group contentMatch 1);
        Ok (JS.obj_set key (decodeHtmlEntities c) tags)
      else Ok tags
  | None => Ok tags
  end.

(** [tags[k] = m[1]]: storing [undefined] leaves a key that reads as
    absent. *)
Definition store (k : string) (m : Regex.state) (tags : OgTags) : OgTags :=
  match group m 1 with
  | Some v => JS.obj_set k v tags
  | None => tags
  end.

Definition parseHtml (html : string) : result OgTags :=
  let tags : OgTags := ∅ in
  (* Parse <title> *)
  tags ←
    match match_ html Patterns.titleRe with
    | Some titleMatch =>
        t ← defined (group titleMatch 1);
        Ok (JS.obj_set "title" (decodeHtmlEntities (JS.trim t)) tags)
    | None => Ok tags
    end;
  (* Parse meta tags *)
  tags ← forEach metaBody (Regex.execAll true Patterns.metaRegex 0 html) tags;
  (* Parse meta description *)
  tags ←
    match orMatch (match_ html Patterns.descRe1) (match_ html Patterns.descRe2) with
    | Some descMatch =>
        d ← defined (group descMatch 1);
        Ok (JS.obj_set "description" (decodeHtmlEntities d) tags)
    | None => Ok tags
    end;
  (* Parse canonical *)
  let tags :=
    match orMatch (match_ html Patterns.canonicalRe1) (match_ html Patterns.canonicalRe2) with
    | Some canonicalMatch => store "canonical" canonicalMatch tags
    | None => tags
    end in
  (* Parse favicon *)
  let tags :=
    match match_ html Patterns.faviconRe with
    | Some faviconMatch => store "favicon" faviconMatch tags
    | None => tags
    end in
  Ok tags.

(** The [<meta>] elements of [html] write the key [k]: the loop body,
    run on an empty object for one of the matches, leaves [k] there. *)
Definition writesMeta (html k : string) : Prop :=
  exists (m : Regex.state) (written : OgTags),
    m ∈ Regex.execAll true Patterns.metaRegex 0 html
    /\ metaBody ∅ m = Ok written
    /\ is_Some (written !! k).

(** Some pattern of [parseHtml] that stores under [k] has matched. *)
Definition written (html k : string) : Prop :=
  (k = "title" /\ is_Some (match_ html Patterns.titleRe))
  \/ writesMeta html k
  \/ (k = "description"
      /\ is_Some (orMatch (match_ html Patterns.descRe1) (match_ html Patterns.descRe2)))
  \/ (k = "canonical"
      /\ is_Some (orMatch (match_ html Patterns.canonicalRe1)
                          (match_ html Patterns.canonicalRe2)))
  \/ (k = "favicon" /\ is_Some (match_ html Patterns.faviconRe)).

Definition sample_html : string :=
  "<html><head><TITLE> Tom &amp; Jerry </TITLE>"
  +:+ "<meta property=" +:+ dq +:+ "og:title" +:+ dq +:+ " content='Hello &lt;b&gt;' />"
  +:+ "<meta content=" +:+ dq +:+ "A page" +:+ dq +:+ " name=" +:+ dq +:+ "Description" +:+ dq +:+ ">"
  +:+ "<meta charset='utf-8'>"
  +:+ "<link rel='canonical' href='https://example.com/'>"
  +:+ "<link href='/f.ico' rel='icon'>"
  +:+ "</head></html>".

(** ** parseArgs *)

(** A value of the [args] record: a string or [true]. *)
Inductive ArgVal : Type :=
  | VStr (s : string)
  | VBool (b : bool).

#[global] Instance ArgVal_eq_dec : EqDecision ArgVal.
Proof. solve_decision. Defined.

Abbreviation Args := (gmap string ArgVal).

(** The [for] loop of [parseArgs] from the current index on: [argv]
    is what is left of the argument vector. *)
Fixpoint parseArgs_loop (argv : list string) (args : Args) (positional : list string)
  : Args * list string :=
  match argv with
  | [] => (args, positional)
  | arg :: rest =>
      if JS.startsWith arg "--" then
        match JS.indexOf "=" arg with
        | Some eqIdx =>
            parseArgs_loop rest
              (JS.obj_set (JS.slice 2 eqIdx arg) (VStr (JS.slice_from (eqIdx + 1) arg)) args)
              positional
        | None =>
            match rest with
            | next :: rest' =>
                if negb (JS.startsWith next "-") then
                  parseArgs_loop rest' (JS.obj_set (JS.slice_from 2 arg) (VStr next) args)
                    positional
                else
                  parseArgs_loop rest (JS.obj_set (JS.slice_from 2 arg) (VBool true) args)
                    positional
            | [] =>
                parseArgs_loop rest (JS.obj_set (JS.slice_from 2 arg) (VBool true) args)
                  positional
            end
        end
      else parseArgs_loop rest args (push positional arg)
  end.

Definition parseArgs (argv : list string) : Args :=
  let '(args, positional) := parseArgs_loop argv ∅ [] in
  match positional with
  | url :: _ => JS.obj_set "_url" (VStr url) args
  | [] => args
  end.

(** [!!v] for an optional [args] value. *)
Definition truthyArg (o : option ArgVal) : bool :=
  match o with
  | Some (VStr s) => negb (String.eqb s "")
  | Some (VBool b) => b
  | None => false
  end.

(** [`${v}`] *)
Definition argToString (o : option ArgVal) : string :=
  match o with
  | Some (VStr s) => s
  | Some (VBool true) => "true"
  | Some (VBool false) => "false"
  | None => "undefined"
  end.

(** ** fetchUrl

    The network is an oracle: what the [n]-th request of a fetch (counted
    from 0) comes to, given the module it goes through ([https] or
    [http]) and its options.  A request ends in an ['error'] event, in a
    ['timeout'] event, or in a response: one that is received to its end,
    or one whose head arrives and whose ['end'] event never comes,
    because the connection is closed before it (the response then emits
    ['aborted'] and ['close'], for which nothing is registered). *)

Inductive HeaderValue : Type :=
  | Single (s : string)
  | Multi (vs : list string).

Record RequestOptions : Type := mkRequestOptions {
  req_hostname : string;
  req_port : string;
  req_path : string;
  req_method : string;
  req_headers : list (string * string);
  req_timeout : JS.number;
}.

Inductive Response : Type :=
  | RequestError (err : exn)
  | RequestTimeout
  | Incoming (statusCode : nat) (headers : list (string * HeaderValue)) (body : string)
  | Unfinished (statusCode : nat) (headers : list (string * HeaderValue)).

Definition Network : Type := nat -> bool -> RequestOptions -> Response.

Record FetchResult : Type := mkFetchResult {
  statusCode : nat;
  headers : gmap string string;
  body : string;
  finalUrl : string;
}.

(** How an asynchronous computation ends: its promise is resolved or
    rejected, an exception escapes from an event callback and ends
    the process, or the promise is never settled and the process ends
    when nothing is left to wait for. *)
Inductive Settled (A : Type) : Type :=
  | Resolved (a : A)
  | Rejected (err : exn)
  | Uncaught (err : exn)
  | Pending.
Arguments Resolved {A} a.
Arguments Rejected {A} err.
Arguments Uncaught {A} err.
Arguments Pending {A}.

(** [res.headers[k]] *)
Fixpoint header (k : string) (hs : list (string * HeaderValue)) : option HeaderValue :=
  match hs with
  | [] => None
  | (k', v) :: hs' => if String.eqb k' k then Some v else header k hs'
  end.

(** [Array.isArray(val) ? val.join(', ') : (val || '')] *)
Definition headerText (v : HeaderValue) : string :=
  match v with
  | Single s => s
  | Multi vs => String.concat ", " vs
  end.

(** [res.statusCode && res.statusCode >= 300 && res.statusCode < 400] *)
Definition isRedirect (status : nat) : bool :=
  negb (status =? 0) && (300 <=? status) && (status <? 400).

Definition requestHeaders : list (string * string) :=
  [("User-Agent", "og-check/1.0.0 (Open Graph Validator)");
   ("Accept", "text/html,application/xhtml+xml");
   ("Accept-Language", "en-US,en;q=0.9")].

(** [parsed.protocol === 'https:'], which selects the module. *)
Definition isHttps (parsed : URL) : bool := String.eqb (protocol parsed) "https:".

(** The [options] of the request for a parsed URL. *)
Definition requestOptions (timeout : JS.number) (parsed : URL) : RequestOptions := {|
  req_hostname := hostname parsed;
  req_port := JS.orElse (Some (port parsed)) (if isHttps parsed then "443" else "80");
  req_path := pathname parsed +:+ search parsed;
  req_method := "GET";
  req_headers := requestHeaders;
  req_timeout := timeout |}.

(** The [responseHeaders] built in the ['end'] callback. *)
Definition responseHeaders (hs : list (string * HeaderValue)) : gmap string string :=
  foldl (fun acc kv => JS.obj_set (JS.toLowerCase kv.1) (headerText kv.2) acc) ∅ hs.

Section Program.

Variable URL_new : URL_ctor.
Variable net : Network.

Section Fetch.

Variable timeout : JS.number.

(** An exception thrown in [doFetch]: the first call runs inside the
    promise executor, which turns it into a rejection; the later
    calls run inside a response callback. *)
Definition thrown (redirects : nat) (e : exn) : Settled FetchResult :=
  if redirects =? 0 then Rejected e else Uncaught e.

Equations? doFetch (fetchUrl : string) (redirects : nat) : Settled FetchResult
  by wf (6 - redirects) lt :=
doFetch fetchUrl redirects with decide (5 < redirects) := {
  | left _ => Rejected (Error "Too many redirects")
  | right _ =>
      match URL_new fetchUrl None with
      | None => thrown redirects InvalidURL
      | Some parsed =>
          match net redirects (isHttps parsed) (requestOptions timeout parsed) with
          | RequestError err => Rejected err
          | RequestTimeout => Rejected (Error "Request timed out")
          | Incoming status hs body =>
              let resolved :=
                Resolved {|
                  statusCode := status;
                  headers := responseHeaders hs;
                  body := body;
                  finalUrl := fetchUrl |} in
              (* Handle redirects *)
              if isRedirect status then
                match header "location" hs with
                | Some (Single EmptyString) => resolved
                | Some (Single location) =>
                    if JS.startsWith location "http" then
                      doFetch location (redirects + 1)
                    else
                      match URL_new location (Some fetchUrl) with
                      | Some u => doFetch (href u) (redirects + 1)
                      | None => Uncaught InvalidURL
                      end
                | Some (Multi _) =>
                    Uncaught (TypeError "res.headers.location.startsWith is not a function")
                | None => resolved
                end
              else resolved
          | Unfinished status hs =>
              (* the same callback; the ['end'] event never comes *)
              if isRedirect status then
                match header "location" hs with
                | Some (Single EmptyString) => Pending
                | Some (Single location) =>
                    if JS.startsWith location "http" then
                      doFetch location (redirects + 1)
                    else
                      match URL_new location (Some fetchUrl) with
                      | Some u => doFetch (href u) (redirects + 1)
                      | None => Uncaught InvalidURL
                      end
                | Some (Multi _) =>
                    Uncaught (TypeError "res.headers.location.startsWith is not a function")
                | None => Pending
                end
              else Pending
          end
      end }.
Proof. all: lia. Qed.

Definition fetchUrl (targetUrl : string) : Settled FetchResult :=
  doFetch targetUrl 0.

(** *** Redirect chains

    What the network answers to the request of hop [n] for
    [fetchUrl], when that URL parses. *)
Definition answer (n : nat) (fetchUrl : string) : option Response :=
  match URL_new fetchUrl None with
  | Some parsed => Some (net n (isHttps parsed) (requestOptions timeout parsed))
  | None => None
  end.

(** Hop [n], at [fetchUrl], is a redirect that leads to [next]: a 3xx
    response with a [location], absolute or resolved against
    [fetchUrl]. *)
Definition redirectsTo (n : nat) (fetchUrl next : string) : Prop :=
  exists status hs body location,
    answer n fetchUrl = Some (Incoming status hs body)
    /\ isRedirect status = true
    /\ header "location" hs = Some (Single location)
    /\ location <> ""
    /\ (if JS.startsWith location "http" then Some location
        else href <$> URL_new location (Some fetchUrl)) = Some next.

(** [redirectChain n u k u']: [k] chained redirects, the first at
    hop [n] from [u], the last one leading to [u']. *)
Inductive redirectChain : nat -> string -> nat -> string -> Prop :=
  | chain_done n u : redirectChain n u 0 u
  | chain_hop n u next k u' :
      redirectsTo n u next ->
      redirectChain (S n) next k u' ->
      redirectChain n u (S k) u'.

(** Hop [n], at [fetchUrl], is a 200 response with these headers
    and this body. *)
Definition serves (n : nat) (fetchUrl : string)
    (hs : list (string * HeaderValue)) (body : string) : Prop :=
  answer n fetchUrl = Some (Incoming 200 hs body).

End Fetch.

(** ** checkUrl *)

Record CheckResult : Type := mkCheckResult {
  tags : OgTags;
  issues : list OgIssue;
  url : string;
}.

Definition checkUrl (targetUrl : string) (timeout : JS.number) : Settled CheckResult :=
  match fetchUrl timeout targetUrl with
  | Resolved response =>
      match parseHtml (body response) with
      | Throw e => Rejected e
      | Ok tags =>
          match validateTags URL_new tags (finalUrl response) with
          | Throw e => Rejected e
          | Ok issues =>
              Resolved {| tags := tags; issues := issues; url := finalUrl response |}
          end
      end
  | Rejected e => Rejected e
  | Uncaught e => Uncaught e
  | Pending => Pending
  end.

(** ** main

    What the process writes is kept as a list of events, one per
    report or message; the layout of their text is the console's. *)

Record Summary : Type := mkSummary {
  errors : nat;
  warnings : nat;
  infos : nat;       (* the field [info] *)
}.

Record JsonReport : Type := mkJsonReport {
  json_url : string;
  valid : bool;
  json_tags : OgTags;
  json_issues : list OgIssue;
  summary : Summary;
}.

Inductive Output : Type :=
  | Help                                       (* showHelp() *)
  | UrlRequired                                (* Error: URL is required. *)
  | InvalidUrl (targetUrl : string)            (* Error: Invalid URL: ... *)
  | Header (fullUrl : string)                  (* og-check v1.0.0, Fetching ... *)
  | Json (report : JsonReport)
  | TagTable (tags : OgTags)                   (* renderTagTable *)
  | Previews (title desc : string) (image : option string) (siteName : string)
  | IssueList (issues : list OgIssue) (counts : Summary)
  | AllGood
  | JsonError (msg : string)                   (* { error: err.message } *)
  | ErrorMessage (msg : string) (hint : bool)  (* Error: ..., and the ENOTFOUND hint *)
  | UncaughtException (err : exn).

Record Run : Type := mkRun {
  outputs : list Output;
  exitCode : nat;
}.

(** [issues.filter(i => i.severity === sev).length] *)
Definition count (sev : Severity) (issues : list OgIssue) : nat :=
  length (filter (fun i => severity i = sev) issues).

(** [issues.some(i => i.severity === 'error')] *)
Definition someError (issues : list OgIssue) : bool :=
  existsb (fun i => bool_decide (severity i = error)) issues.

(** [a || b || null] on optional strings. *)
Definition firstTruthy (a b : option string) : option string :=
  if JS.truthy a then a else if JS.truthy b then b else None.

Definition renderPreviews (tags : OgTags) (url : string) : result Output :=
  let title :=
    JS.orElse (tags !! "og:title")
      (JS.orElse (tags !! "twitter:title") (JS.orElse (tags !! "title") "No title")) in
  let desc :=
    JS.orElse (tags !! "og:description")
      (JS.orElse (tags !! "twitter:description")
         (JS.orElse (tags !! "description") "No description")) in
  let image := firstTruthy (tags !! "og:image") (tags !! "twitter:image") in
  siteName ←
    (if JS.truthy (tags !! "og:site_name") then Ok (get tags "og:site_name")
     else match URL_new url None with
          | Some u => Ok (hostname u)
          | None => Throw InvalidURL
          end);
  Ok (Previews title desc image siteName).

Definition summarize (issues : list OgIssue) : Summary :=
  {| errors := count error issues;
     warnings := count warning issues;
     infos := count info issues |}.

(** What the [try] block writes once [checkUrl] has resolved, and the
    exception that ends it, if any. *)
Definition report (jsonOutput : bool) (result : CheckResult) : list Output * option exn :=
  if jsonOutput then
    let errors := count error (issues result) in
    ([Json {| json_url := url result;
              valid := errors =? 0;
              json_tags := tags result;
              json_issues := issues result;
              summary := summarize (issues result) |}], None)
  else
    match renderPreviews (tags result) (url result) with
    | Throw err => ([TagTable (tags result)], Some err)
    | Ok previews =>
        ([TagTable (tags result); previews;
          if 0 <? length (issues result)
          then IssueList (issues result) (summarize (issues result))
          else AllGood], None)
    end.

(** The [catch] block. *)
Definition handler (jsonOutput : bool) (err : exn) : Output :=
  if jsonOutput then JsonError (message err)
  else ErrorMessage (message err) (bool_decide (code err = Some "ENOTFOUND")).

Definition main (argv : list string) : Run :=
  let args := parseArgs argv in
  if truthyArg (args !! "help") then {| outputs := [Help]; exitCode := 0 |}
  else
    let targetUrl := args !! "_url" in
    if negb (truthyArg targetUrl) then {| outputs := [UrlRequired]; exitCode := 1 |}
    else
      (* Validate URL *)
      match
        match targetUrl with
        | Some (VStr t) =>
            URL_new (if JS.startsWith t "http" then t else "https://" +:+ t) None
        | _ => None   (* [targetUrl.startsWith] is not a function *)
        end
      with
      | None => {| outputs := [InvalidUrl (argToString targetUrl)]; exitCode := 1 |}
      | Some parsedUrl =>
          let fullUrl := href parsedUrl in
          let jsonOutput := truthyArg (args !! "json") in
          let ciMode := truthyArg (args !! "ci") in
          let timeout :=
            JS.parseInt (if truthyArg (args !! "timeout")
                         then argToString (args !! "timeout") else "10000") in
          let intro := if negb jsonOutput then [Header fullUrl] else [] in
          match checkUrl fullUrl timeout with
          | Uncaught err =>
              {| outputs := intro ++ [UncaughtException err]; exitCode := 1 |}
          | Rejected err =>
              {| outputs := intro ++ [handler jsonOutput err]; exitCode := 1 |}
          | Pending =>
              (* [await] never returns: the process ends with nothing
                 more written and no exit code set *)
              {| outputs := intro; exitCode := 0 |}
          | Resolved result =>
              match report jsonOutput result with
              | (out, Some err) =>
                  {| outputs := intro ++ out ++ [handler jsonOutput err]; exitCode := 1 |}
              | (out, None) =>
                  {| outputs := intro ++ out;
                     exitCode := if ciMode && someError (issues result) then 1 else 0 |}
              end
          end
      end.

(** A run of [main] on [argv] that gets as far as a validation
    result: no [--help], a URL argument that [new URL] accepts, and a
    [checkUrl] that resolves with [result]. *)
Definition validationRun (argv : list string) (result : CheckResult) : Prop :=
  let args := parseArgs argv in
  truthyArg (args !! "help") = false
  /\ exists t parsedUrl,
       args !! "_url" = Some (VStr t)
       /\ t <> ""
       /\ URL_new (if JS.startsWith t "http" then t else "https://" +:+ t) None
          = Some parsedUrl
       /\ checkUrl (href parsedUrl)
            (JS.parseInt (if truthyArg (args !! "timeout")
                          then argToString (args !! "timeout") else "10000"))
          = Resolved result.

(** A run of [main] on [argv] whose check is never settled: no
    [--help], a URL argument that [new URL] accepts, and a [checkUrl]
    that stays pending. *)
Definition pendingRun (argv : list string) : Prop :=
  let args := parseArgs argv in
  truthyArg (args !! "help") = false
  /\ exists t parsedUrl,
       args !! "_url" = Some (VStr t)
       /\ t <> ""
       /\ URL_new (if JS.startsWith t "http" then t else "https://" +:+ t) None
          = Some parsedUrl
       /\ checkUrl (href parsedUrl)
            (JS.parseInt (if truthyArg (args !! "timeout")
                          then argToString (args !! "timeout") else "10000"))
          = Pending.

End Program.

(** ** The rule list, rule by rule

    [validateTags] pushes onto one array; for the proofs the same list is
    the concatenation of what each rule contributes
    ([validateTags_rules] below). *)

(** What one [if (cond) issues.push(i)] contributes. *)
Definition rule (cond : bool) (i : OgIssue) : list OgIssue :=
  if cond then [i] else [].

Definition titleRules (tags : OgTags) : list OgIssue :=
  if negb (JS.truthy (tags !! "og:title")) then [Issue.missingTitle tags]
  else rule (95 <? String.length (get tags "og:title")) (Issue.longTitle tags).

Definition descriptionRules (tags : OgTags) : list OgIssue :=
  if negb (JS.truthy (tags !! "og:description")) then [Issue.missingDescription tags]
  else rule (300 <? String.length (get tags "og:description")) (Issue.longDescription tags).

Definition dimensionRules (tags : OgTags) : list OgIssue :=
  if negb (JS.truthy (tags !! "og:image:width"))
     || negb (JS.truthy (tags !! "og:image:height"))
  then [Issue.missingDimensions]
  else
    let w := JS.parseInt (get tags "og:image:width") in
    let h := JS.parseInt (get tags "og:image:height") in
    rule (JS.lt w 200 || JS.lt h 200) (Issue.smallImage w h).

Definition absoluteRule (URL_new : URL_ctor) (tags : OgTags) (url : string)
  : result (list OgIssue) :=
  if negb (JS.startsWith (get tags "og:image") "http") then
    match URL_new (get tags "og:image") (Some url) with
    | None => Throw InvalidURL
    | Some absolute => Ok [Issue.relativeImage (href absolute)]
    end
  else Ok [].

Definition imageRules (URL_new : URL_ctor) (tags : OgTags) (url : string)
  : result (list OgIssue) :=
  if negb (JS.truthy (tags !! "og:image")) then Ok [Issue.missingImage]
  else
    abs ← absoluteRule URL_new tags url;
    Ok (abs ++ dimensionRules tags
            ++ rule (negb (JS.truthy (tags !! "og:image:alt"))) Issue.missingAlt).

Definition generalRules (tags : OgTags) (url : string) : list OgIssue :=
  rule (negb (JS.truthy (tags !! "og:url"))) (Issue.missingUrl url)
  ++ rule (negb (JS.truthy (tags !! "og:type"))) Issue.missingType
  ++ rule (negb (JS.truthy (tags !! "twitter:card"))) Issue.missingCard
  ++ rule (negb (JS.truthy (tags !! "twitter:title")) && negb (JS.truthy (tags !! "og:title")))
       Issue.noTwitterTitle
  ++ rule (negb (JS.truthy (tags !! "twitter:image")) && negb (JS.truthy (tags !! "og:image")))
       Issue.noTwitterImage
  ++ rule (negb (JS.truthy (tags !! "title"))) Issue.missingHtmlTitle
  ++ rule (negb (JS.truthy (tags !! "description"))) Issue.missingMetaDescription
  ++ rule (negb (JS.truthy (tags !! "canonical"))) (Issue.missingCanonical url).

(** The one way [validateTags] throws: an [og:image] that does not
    start with [http] and that [new URL] refuses against the page URL. *)
Definition unresolvableImage (URL_new : URL_ctor) (tags : OgTags) (url : string) : Prop :=
  JS.truthy (tags !! "og:image") = true
  /\ JS.startsWith (get tags "og:image") "http" = false
  /\ URL_new (get tags "og:image") (Some url) = None.

(** The issues about tag [t], and the warnings about it. *)
Definition withTag (t : string) (issues : list OgIssue) : list OgIssue :=
  filter (fun i => tag i = t) issues.

Definition isWarningOn (t : string) (i : OgIssue) : Prop :=
  tag i = t /\ severity i = warning.

#[global] Instance isWarningOn_dec t i : Decision (isWarningOn t i).
Proof. unfold isWarningOn. apply _. Defined.

Definition example_page : string := "https://example.com/page".

(** A page with the three required tags and nothing else. *)
Definition plain_html : string :=
  "<meta property='og:title' content='A title'>"
  +:+ "<meta property='og:description' content='A description'>"
  +:+ "<meta property='og:image' content='https://example.com/a.png'>".

(** ** A platform for the examples

    A URL constructor and a few sites to run the program on.  The
    constructor follows the URL Standard, which Node implements, on
    the inputs the examples give it: [http://] and [https://] URLs with
    a host and an optional port, and references without a scheme
    (scheme-relative, path-absolute, relative with dot segments, query
    or fragment only) against such a base.  Hosts and schemes are
    lower-cased, a default port is dropped, dot segments are removed.
    Outside of that (user names, IPv6 hosts, characters that are
    percent-encoded or refused, back slashes, surrounding white space,
    a special scheme without [//]) it is no model of Node; for a URL of
    another scheme it gives the [href] and the [protocol] only. *)

Module Sample.

(** The text before the first character of [stops], and the rest. *)
Fixpoint untilAny (stops : string) (s : string) : string * string :=
  match s with
  | EmptyString => (EmptyString, EmptyString)
  | String c s' =>
      if Regex.member false c stops then (EmptyString, s)
      else let '(a, b) := untilAny stops s' in (String c a, b)
  end.

(** [s] without its leading slashes: the slashes after [http:] are
    skipped, however many. *)
Fixpoint dropSlashes (s : string) : string :=
  match s with
  | EmptyString => EmptyString
  | String c s' => if Ascii.eqb c "/" then dropSlashes s' else s
  end.

(** The segments of a path, given without its leading slash. *)
Fixpoint segments (s : string) : list string :=
  match s with
  | EmptyString => [EmptyString]
  | String c s' =>
      if Ascii.eqb c "/" then EmptyString :: segments s'
      else match segments s' with
           | seg :: segs => String c seg :: segs
           | [] => [String c EmptyString]
           end
  end.

(** Reading the segments of a path: [..] drops the last segment read,
    [.] is skipped, and either leaves an empty segment when it ends the
    path.  [read] holds the segments read, the last one first. *)
Fixpoint removeDots (segs read : list string) : list string :=
  match segs with
  | [] => rev read
  | seg :: rest =>
      let ending : list string := match rest with [] => [EmptyString] | _ => [] end in
      if String.eqb seg ".." then removeDots rest (ending ++ tail read)
      else if String.eqb seg "." then removeDots rest (ending ++ read)
      else removeDots rest (seg :: read)
  end.

(** The [pathname] for the path text after the host: empty, or
    starting with a slash. *)
Definition pathOf (path : string) : string :=
  "/" +:+ String.concat "/" (removeDots (segments (JS.slice_from 1 path)) []).

(** A path up to its last slash. *)
Fixpoint dirname (s : string) : string :=
  match s with
  | EmptyString => EmptyString
  | String c s' =>
      match dirname s' with
      | EmptyString => if Ascii.eqb c "/" then "/" else EmptyString
      | d => String c d
      end
  end.

Fixpoint allDigits (s : string) : bool :=
  match s with
  | EmptyString => true
  | String c s' =>
      match JS.digitValue 10 c with
      | Some _ => allDigits s'
      | None => false
      end
  end.

Definition defaultPort (scheme : string) : string :=
  if String.eqb scheme "https:" then "443" else "80".

(** The host and the port of [host:port]: no empty host, a port of
    digits up to 65535, given without leading zeros and only when it is
    not the default of the scheme. *)
Definition authority (scheme auth : string) : option (string * string) :=
  let '(host, rest) := untilAny ":" auth in
  let digits := JS.slice_from 1 rest in
  if String.eqb host "" then None
  else if negb (allDigits digits) then None
  else if String.eqb digits "" then Some (JS.toLowerCase host, "")
  else if JS.lt (JS.parseInt digits) 65536 then
    let port := JS.numberToString (JS.parseInt digits) in
    Some (JS.toLowerCase host, if String.eqb port (defaultPort scheme) then "" else port)
  else None.

(** The scheme of an [http://] or [https://] URL, and what follows the
    two slashes. *)
Definition special (input : string) : option (string * string) :=
  let lower := JS.toLowerCase input in
  if JS.startsWith lower "https://" then Some ("https:", JS.slice_from 8 input)
  else if JS.startsWith lower "http://" then Some ("http:", JS.slice_from 7 input)
  else None.

Definition absolute (input : string) : option URL :=
  let '(input, hash) := untilAny "#" input in
  match special input with
  | None => None
  | Some (scheme, rest) =>
      let '(auth, rest) := untilAny "/?" (dropSlashes rest) in
      let '(path, query) := untilAny "?" rest in
      match authority scheme auth with
      | None => None
      | Some (host, port) =>
          let origin :=
            scheme +:+ "//" +:+ host
            +:+ (if String.eqb port "" then "" else ":" +:+ port) in
          Some {|
            href := origin +:+ pathOf path +:+ query +:+ hash;
            protocol := scheme;
            hostname := host;
            port := port;
            pathname := pathOf path;
            search := if String.eqb query "?" then "" else query |}
      end
  end.

Definition isLetter (c : ascii) : bool :=
  let n := nat_of_ascii (JS.lowerChar c) in (97 <=? n) && (n <=? 122).

Fixpoint schemeChars (s : string) : bool :=
  match s with
  | EmptyString => true
  | String c s' =>
      (isLetter c || allDigits (String c EmptyString) || Regex.member false c "+-.")
      && schemeChars s'
  end.

(** The scheme of an input that starts with one, in lower case and
    with its colon. *)
Definition schemeOf (input : string) : option string :=
  let '(name, rest) := untilAny ":/?#" input in
  match name, rest with
  | String c _, String ":" _ =>
      if isLetter c && schemeChars name then Some (JS.toLowerCase name +:+ ":") else None
  | _, _ => None
  end.

(** A URL of another scheme, as it is written. *)
Definition other (scheme input : string) : URL := {|
  href := input;
  protocol := scheme;
  hostname := "";
  port := "";
  pathname := JS.slice_from (String.length scheme) input;
  search := "" |}.

(** A reference without a scheme, against a base. *)
Definition relative (input : string) (base : URL) : option URL :=
  let origin :=
    protocol base +:+ "//" +:+ hostname base
    +:+ (if String.eqb (port base) "" then "" else ":" +:+ port base) in
  let '(reference, hash) := untilAny "#" input in
  if JS.startsWith reference "//" then absolute (protocol base +:+ input)
  else if JS.startsWith reference "/" then absolute (origin +:+ input)
  else if String.eqb reference "" then
    absolute (origin +:+ pathname base +:+ search base +:+ hash)
  else if JS.startsWith reference "?" then absolute (origin +:+ pathname base +:+ input)
  else absolute (origin +:+ dirname (pathname base) +:+ input).

Definition URL_new : URL_ctor := fun input base =>
  match schemeOf input with
  | Some scheme =>
      if String.eqb scheme "https:" || String.eqb scheme "http:" then absolute input
      else Some (other scheme input)
  | None =>
      match base with
      | None => None
      | Some b =>
          match absolute b with
          | None => None
          | Some parsedBase => relative input parsedBase
          end
      end
  end.

(** A site whose paths [/0], ..., [/(n-1)] each redirect to the next
    one and whose other paths serve [page]. *)
Definition site (n : nat) (page : string) : Network := fun _ _ options =>
  match JS.parseInt (JS.slice_from 1 (req_path options)) with
  | Some k =>
      if (k <? Z.of_nat n)%Z
      then Incoming 302
             [("location", Single ("/" +:+ JS.numberToString (Some (k + 1)%Z)))] ""
      else Incoming 200 [("content-type", Single "text/html")] page
  | None => Incoming 200 [("content-type", Single "text/html")] page
  end.

(** A string of [n] letters. *)
Fixpoint letters (n : nat) : string :=
  match n with
  | O => EmptyString
  | S k => String "a" (letters k)
  end.

End Sample.

(** ** Further definitions for the properties of the validator *)

(** The tags of the rule list, in the order in which the rules run. *)
Definition ruleOrder : list string :=
  ["og:title"; "og:description"; "og:image"; "og:image:width/height"; "og:image";
   "og:image:alt"; "og:url"; "og:type"; "twitter:card"; "twitter:title";
   "twitter:image"; "title"; "description"; "canonical"].

(** No rule of the list fires: the twelve tags below are there and
    within their limits.  [twitter:title] and [twitter:image] are not
    among them: their rules fire only when [og:title] and [og:image]
    are missing too. *)
Definition complete (tags : OgTags) : bool :=
  JS.truthy (tags !! "og:title")
  && (String.length (get tags "og:title") <=? 95)
  && JS.truthy (tags !! "og:description")
  && (String.length (get tags "og:description") <=? 300)
  && JS.truthy (tags !! "og:image")
  && JS.startsWith (get tags "og:image") "http"
  && JS.truthy (tags !! "og:image:width")
  && JS.truthy (tags !! "og:image:height")
  && negb (JS.lt (JS.parseInt (get tags "og:image:width")) 200
           || JS.lt (JS.parseInt (get tags "og:image:height")) 200)
  && JS.truthy (tags !! "og:image:alt")
  && JS.truthy (tags !! "og:url")
  && JS.truthy (tags !! "og:type")
  && JS.truthy (tags !! "twitter:card")
  && JS.truthy (tags !! "title")
  && JS.truthy (tags !! "description")
  && JS.truthy (tags !! "canonical").


(** ** truncate *)

(** [s.slice(0, end)] for any integer [end]: a negative [end] counts
    from the end of [s]. *)
Definition sliceTo (end_ : Z) (s : string) : string :=
  if (end_ <? 0)%Z
  then JS.take (Z.to_nat (Z.of_nat (String.length s) + end_)) s
  else JS.take (Z.to_nat end_) s.

Definition truncate (str : string) (max : Z) : string :=
  if String.eqb str "" then ""
  else if (max <? Z.of_nat (String.length str))%Z
       then sliceTo (max - 3) str +:+ "..."
       else str.

(** ** The steps of parseHtml

    The four parts of [parseHtml], each as a function of the object it
    receives ([parseHtml_steps] below puts them together). *)

Definition titleStep (html : string) (tags : OgTags) : result OgTags :=
  match match_ html Patterns.titleRe with
  | Some titleMatch =>
      t ← defined (group titleMatch 1);
      Ok (JS.obj_set "title" (decodeHtmlEntities (JS.trim t)) tags)
  | None => Ok tags
  end.

Definition metaStep (html : string) (tags : OgTags) : result OgTags :=
  forEach metaBody (Regex.execAll true Patterns.metaRegex 0 html) tags.

Definition descriptionStep (html : string) (tags : OgTags) : result OgTags :=
  match orMatch (match_ html Patterns.descRe1) (match_ html Patterns.descRe2) with
  | Some descMatch =>
      d ← defined (group descMatch 1);
      Ok (JS.obj_set "description" (decodeHtmlEntities d) tags)
  | None => Ok tags
  end.

Definition linkSteps (html : string) (tags : OgTags) : OgTags :=
  let tags :=
    match orMatch (match_ html Patterns.canonicalRe1) (match_ html Patterns.canonicalRe2) with
    | Some canonicalMatch => store "canonical" canonicalMatch tags
    | None => tags
    end in
  match match_ html Patterns.faviconRe with
  | Some faviconMatch => store "favicon" faviconMatch tags
  | None => tags
  end.

(** The element [m] writes [v] under [k]: the loop body, run on an empty
    object, leaves that entry. *)
Definition metaWrites (m : Regex.state) (k v : string) : Prop :=
  exists written : OgTags, metaBody ∅ m = Ok written /\ written !! k = Some v.

(** The element [m] writes nothing under [k]. *)
Definition metaSkips (m : Regex.state) (k : string) : Prop :=
  forall written : OgTags, metaBody ∅ m = Ok written -> written !! k = None.

(** ** One [<meta>] element

    The text of an element with a [property] and a [content] attribute,
    in that order and in double quotes, and the texts for which the
    extractor is followed through it: a key without white space, quote,
    [=] or [>], a value without quote or [>]. *)

Definition metaElement (key value : string) : string :=
  "<meta " +:+ attr "property" key +:+ " " +:+ attr "content" value +:+ ">".

Fixpoint allChars (P : ascii -> bool) (s : string) : bool :=
  match s with
  | EmptyString => true
  | String c s' => P c && allChars P s'
  end.

Definition keyChar (c : ascii) : bool :=
  negb (JS.isWhiteSpace c) && negb (Regex.member false c (Patterns.quotes +:+ "=>")).

Definition valueChar (c : ascii) : bool :=
  negb (Regex.member false c (Patterns.quotes +:+ ">")).

(** [w'] is [w] up to the case of its letters. *)
Fixpoint litMatches (ignoreCase : bool) (w w' : string) : bool :=
  match w, w' with
  | EmptyString, EmptyString => true
  | String c w1, String d w1' => Regex.sameChar ignoreCase c d && litMatches ignoreCase w1 w1'
  | _, _ => false
  end.

Fixpoint lastChar (s : string) : option ascii :=
  match s with
  | EmptyString => None
  | String c EmptyString => Some c
  | String _ s' => lastChar s'
  end.

(** The double quote, as a character. *)
Definition dquote : ascii := ascii_of_nat 34.

(** The attribute text of [metaElement key value]. *)
Definition metaAttributes (key value : string) : string :=
  attr "property" key +:+ " " +:+ attr "content" value.

(** ** More sites for the examples *)

Module Sites.

(** A site whose paths [/0], ..., [/(n-1)] each redirect to the next
    one and whose other paths answer with [last]. *)
Definition ending (n : nat) (last : Response) : Network := fun _ _ options =>
  match JS.parseInt (JS.slice_from 1 (req_path options)) with
  | Some k =>
      if (k <? Z.of_nat n)%Z
      then Incoming 302
             [("location", Single ("/" +:+ JS.numberToString (Some (k + 1)%Z)))] ""
      else last
  | None => last
  end.

(** A page whose image is a scheme-relative reference without a host,
    which [new URL] refuses against every base. *)
Definition unresolvable_image : string := "<meta property='og:image' content='//'>".

(** A page with the same key in three elements, in mixed case. *)
Definition repeated_title : string :=
  "<meta property='og:title' content='First'>"
  +:+ "<meta name='OG:Title' content='Second &amp; last'>"
  +:+ "<meta name='author' content='Somebody'>".

(** A map with the twelve tags of [complete], and without
    [twitter:title] and [twitter:image]. *)
Definition complete_tags : OgTags :=
  list_to_map
    [("og:title", "A title"); ("og:description", "A description");
     ("og:image", "https://example.com/a.png");
     ("og:image:width", "1200"); ("og:image:height", "630");
     ("og:image:alt", "A picture"); ("og:url", "https://example.com/page");
     ("og:type", "website"); ("twitter:card", "summary_large_image");
     ("title", "A title"); ("description", "A description");
     ("canonical", "https://example.com/page")].

End Sites.

(** What follows a repetition stops it: the end of the text, or a
    character the atom does not match. *)
Definition stops (ignoreCase : bool) (a : Regex.atom) (rest : string) : Prop :=
  match rest with
  | EmptyString => True
  | String c _ => Regex.atomMatches ignoreCase a c = false
  end.

(** ** Proof automation *)

(** Folds the pushes of the rules after the image block into
    concatenations, innermost first, so that each step rewrites every
    copy of its rule at once; [fold] is the equation for one push. *)
Ltac fold_rules fold :=
  repeat match goal with
    | |- context [if ?c then push ?xs ?i else ?xs] =>
        lazymatch xs with
        | context [if _ then _ else _] => fail
        | _ => rewrite (fold xs c i)
        end
    end;
  unfold push; rewrite <- ?app_assoc.

(** The same with the dimension rule, which has two pushes, set aside
    while the later rules are folded. *)
Ltac dimension_block fold tags :=
  let base := fresh "base" in
  match goal with
  | |- context [if negb (JS.truthy (tags !! "og:image:alt")) then push ?X _ else _] =>
      set (base := X)
  end;
  fold_rules fold; subst base;
  destruct (negb (JS.truthy (tags !! "og:image:width"))
            || negb (JS.truthy (tags !! "og:image:height")));
  rewrite ?fold; unfold push; rewrite <- ?app_assoc; reflexivity.

(** Case analysis over the conditions of the image rules. *)
Ltac image_cases tags :=
  unfold imageRules, absoluteRule, dimensionRules, rule;
  destruct (JS.truthy (tags !! "og:image")); simpl;
  [ destruct (JS.startsWith (get tags "og:image") "http"); simpl;
    [ | match goal with |- context [match ?U with Some _ => _ | None => _ end] =>
          destruct U; simpl end ]
  | ];
  try discriminate;
  try (intros [= <-];
       destruct (JS.truthy (tags !! "og:image:width")); simpl;
       destruct (JS.truthy (tags !! "og:image:height")); simpl;
       destruct (JS.truthy (tags !! "og:image:alt")); simpl;
       try match goal with |- context [if ?c then [_] else []] => destruct c end).

(** One hop of a redirect chain on a sample site. *)
Ltac sample_hop target :=
  apply chain_hop with (next := target);
  [ eexists _, _, _, _; split; [vm_compute; reflexivity|];
    split; [reflexivity|]; split; [reflexivity|]; split; [discriminate|];
    vm_compute; reflexivity
  | ].

(** A run on a sample site gets to its validation result. *)
Ltac reach_validation :=
  split; [vm_compute; reflexivity|];
  eexists _, _; split; [vm_compute; reflexivity|];
  split; [discriminate|];
  split; [vm_compute; reflexivity | vm_compute; reflexivity].

(** * Properties *)

(** ** Checks of the embedding on concrete inputs *)

Example decode_plain : decodeHtmlEntities "Tom &amp; Jerry &lt;3" = "Tom & Jerry <3".
Proof. reflexivity. Qed.

Example parseInt_examples :
  JS.parseInt "1200" = Some 1200%Z /\ JS.parseInt "  -7px" = Some (-7)%Z /\
  JS.parseInt "0x1F" = Some 31%Z /\ JS.parseInt "abc" = None /\
  JS.parseInt "-" = None /\ JS.parseInt "12e3" = Some 12%Z /\
  JS.numberToString (Some 150%Z) = "150" /\ JS.natToString 96 = "96" /\
  JS.natToString 0 = "0" /\ JS.numberToString (Some (-3)%Z) = "-3".
Proof. repeat split; reflexivity. Qed.

Example trim_examples :
  JS.trim "  a b  " = "a b" /\ JS.trim "   " = "" /\ JS.toLowerCase "OG:Title" = "og:title".
Proof. repeat split; reflexivity. Qed.

Example parseHtml_sample :
  parseHtml sample_html
  = Ok (<["canonical" := "https://example.com/"]>
        (<["description" := "A page"]>
        (<["og:title" := "Hello <b>"]>
        (<["title" := "Tom & Jerry"]> ∅)))).
Proof. compute_done. Qed.

Example parseArgs_example :
  parseArgs ["https://a.io"; "--ci"; "--timeout=500"; "--json"]
  = <["_url" := VStr "https://a.io"]>
      (<["json" := VBool true]>
        (<["timeout" := VStr "500"]> (<["ci" := VBool true]> ∅))).
Proof. compute_done. Qed.

Example meta_element_captures :
  map (fun m => group m 1)
    (Regex.execAll true Patterns.metaRegex 0
       "<META name='a' content='b'/><meta  charset=utf-8 >")
  = [Some "name='a' content='b'"; Some "charset=utf-8 "].
Proof. compute_done. Qed.

Example last_meta_wins :
  parseHtml "<meta name='OG:Title' content='one'><meta content='two' property='og:title'>"
  = Ok {["og:title" := "two"]}.
Proof. compute_done. Qed.

Example small_image_dimensions :
  let tags (w h : string) : OgTags :=
    <["og:image" := "https://example.com/a.png"]>
      (<["og:image:width" := w]> (<["og:image:height" := h]> ∅)) in
  (issues ← validateTags Sample.URL_new (tags "150" "300") example_page;
   Ok (withTag "og:image" issues))
  = Ok [Issue.smallImage (Some 150%Z) (Some 300%Z)]
  /\ (issues ← validateTags Sample.URL_new (tags "1200" "630") example_page;
      Ok (withTag "og:image" issues))
     = Ok [].
Proof. split; compute_done. Qed.

Example fetch_follows_redirects :
  fetchUrl Sample.URL_new (Sample.site 3 plain_html) None "https://example.com/1"
  = Resolved {| statusCode := 200;
                headers := {["content-type" := "text/html"]};
                body := plain_html;
                finalUrl := "https://example.com/3" |}.
Proof. compute_done. Qed.

Example main_ci_exit_code :
  exitCode (main Sample.URL_new (Sample.site 0 plain_html) ["example.com"; "--ci"]) = 0
  /\ exitCode (main Sample.URL_new (Sample.site 0 sample_html) ["example.com"; "--ci"]) = 1
  /\ exitCode (main Sample.URL_new (Sample.site 0 sample_html) ["example.com"]) = 0
  /\ main Sample.URL_new (Sample.site 0 sample_html) ["--help"]
     = {| outputs := [Help]; exitCode := 0 |}.
Proof. repeat split; compute_done. Qed.

(** ** The validator *)

Lemma push_rule (xs : list OgIssue) (c : bool) (i : OgIssue) :
  (if c then push xs i else xs) = xs ++ rule c i.
Proof. destruct c; simpl; [reflexivity | by rewrite app_nil_r]. Qed.

Lemma validateTags_rules URL_new tags url :
  validateTags URL_new tags url =
  (img ← imageRules URL_new tags url;
   Ok (titleRules tags ++ descriptionRules tags ++ img ++ generalRules tags url)).
Proof.
  unfold validateTags, imageRules, absoluteRule, generalRules.
  set (T := titleRules tags). set (D := descriptionRules tags).
  assert (HT : (if negb (JS.truthy (tags !! "og:title")) then push [] (Issue.missingTitle tags)
                else if 95 <? String.length (get tags "og:title")
                     then push [] (Issue.longTitle tags) else []) = T).
  { subst T. unfold titleRules, rule, push. by repeat case_match. }
  rewrite HT. clear HT.
  assert (HD : (if negb (JS.truthy (tags !! "og:description"))
                then push T (Issue.missingDescription tags)
                else if 300 <? String.length (get tags "og:description")
                     then push T (Issue.longDescription tags) else T) = T ++ D).
  { subst D. unfold descriptionRules, rule, push. repeat case_match; by rewrite ?app_nil_r. }
  cbv zeta. rewrite HD. clear HD.
  unfold dimensionRules. cbv zeta.
  destruct (negb (JS.truthy (tags !! "og:image"))); simpl.
  - fold_rules push_rule. reflexivity.
  - destruct (negb (JS.startsWith (get tags "og:image") "http")); simpl.
    + destruct (URL_new (get tags "og:image") (Some url)) as [u|]; simpl; [|reflexivity].
      dimension_block push_rule tags.
    + dimension_block push_rule tags.
Qed.

Lemma validateTags_throws URL_new tags url e :
  validateTags URL_new tags url = Throw e ->
  e = InvalidURL /\ unresolvableImage URL_new tags url.
Proof.
  rewrite validateTags_rules. unfold imageRules, absoluteRule, unresolvableImage.
  destruct (JS.truthy (tags !! "og:image")); simpl; [|discriminate].
  destruct (JS.startsWith (get tags "og:image") "http"); simpl; [discriminate|].
  destruct (URL_new (get tags "og:image") (Some url)); simpl; [discriminate|].
  intros [= <-]. auto.
Qed.

Lemma withTag_app t (xs ys : list OgIssue) :
  withTag t (xs ++ ys) = withTag t xs ++ withTag t ys.
Proof. apply filter_app. Qed.

Lemma withTag_rule_ne t c i : tag i <> t -> withTag t (rule c i) = [].
Proof.
  intros Hne. destruct c; [|reflexivity].
  unfold withTag, rule. rewrite filter_cons, decide_False by exact Hne. reflexivity.
Qed.

Lemma withTag_rule_eq t c i : tag i = t -> withTag t (rule c i) = rule c i.
Proof.
  intros He. destruct c; [|reflexivity].
  unfold withTag, rule. rewrite filter_cons, decide_True by exact He. reflexivity.
Qed.

Lemma withTag_generalRules t tags url :
  t = "og:title" \/ t = "og:image" ->
  withTag t (generalRules tags url) = [].
Proof.
  intros Ht. unfold generalRules. rewrite !withTag_app.
  rewrite !withTag_rule_ne; [reflexivity | ..]; simpl; destruct Ht; subst t; discriminate.
Qed.

Lemma withTag_descriptionRules t tags :
  t = "og:title" \/ t = "og:image" ->
  withTag t (descriptionRules tags) = [].
Proof.
  intros Ht. unfold descriptionRules.
  destruct (negb (JS.truthy (tags !! "og:description"))).
  - change [Issue.missingDescription tags] with (rule true (Issue.missingDescription tags)).
    apply withTag_rule_ne. simpl. destruct Ht; subst t; discriminate.
  - apply withTag_rule_ne. simpl. destruct Ht; subst t; discriminate.
Qed.

Lemma withTag_title_imageRules URL_new tags url img :
  imageRules URL_new tags url = Ok img -> withTag "og:title" img = [].
Proof. image_cases tags; reflexivity. Qed.

(** What [validateTags] comes to, in one statement: either the issue
    list, rule by rule, or the one exception. *)
Lemma validateTags_cases URL_new tags url :
  match validateTags URL_new tags url with
  | Ok issues =>
      exists img, imageRules URL_new tags url = Ok img
        /\ issues = titleRules tags ++ descriptionRules tags ++ img ++ generalRules tags url
  | Throw e => e = InvalidURL /\ unresolvableImage URL_new tags url
  end.
Proof.
  destruct (validateTags URL_new tags url) as [issues|e] eqn:E.
  - rewrite validateTags_rules in E.
    destruct (imageRules URL_new tags url) as [img|]; simpl in E; [|discriminate].
    injection E as <-. eauto.
  - by apply validateTags_throws.
Qed.

Lemma rule_In (c : bool) (i j : OgIssue) : j ∈ rule c i <-> c = true /\ j = i.
Proof.
  destruct c; simpl.
  - rewrite list_elem_of_singleton. intuition.
  - split; [by intros ?%elem_of_nil | by intros [? _]].
Qed.

Lemma not_warning_generalRules tags url :
  Forall (fun i => ~ isWarningOn "og:image" i) (generalRules tags url)
  /\ Forall (fun i => ~ isWarningOn "og:title" i) (generalRules tags url).
Proof.
  unfold generalRules.
  split; rewrite !Forall_app; repeat split;
    apply Forall_forall; intros j [_ ->]%rule_In; intros [Ht _]; discriminate Ht.
Qed.

Lemma not_warning_descriptionRules tags :
  Forall (fun i => ~ isWarningOn "og:image" i) (descriptionRules tags)
  /\ Forall (fun i => ~ isWarningOn "og:title" i) (descriptionRules tags).
Proof.
  unfold descriptionRules, rule.
  split; repeat case_match; repeat constructor; intros [Ht _]; discriminate Ht.
Qed.

Lemma not_warning_title_imageRules URL_new tags url img :
  imageRules URL_new tags url = Ok img ->
  Forall (fun i => ~ isWarningOn "og:title" i) img.
Proof. image_cases tags; repeat constructor; intros [Ht _]; discriminate Ht. Qed.

(** C3 (as amended).  When the map has no [og:title], the issues about
    [og:title] are exactly one: the error that reports it missing, whose
    fix embeds the [title] value when that is present and not empty, and
    the placeholder otherwise.  The validator throws only for an
    [og:image] that [new URL] refuses. *)
Theorem missing_og_title_issue (URL_new : URL_ctor) (tags : OgTags) (url : string) :
  tags !! "og:title" = None ->
  match validateTags URL_new tags url with
  | Ok issues =>
      withTag "og:title" issues =
      [ {| tag := "og:title";
           problem := "Missing og:title. Social platforms won't show a proper title for your link.";
           fix_ := metaTag "property" "og:title"
                     match tags !! "title" with
                     | Some (String c t) => String c t
                     | _ => "Your Page Title"
                     end;
           severity := error |} ]
  | Throw _ => unresolvableImage URL_new tags url
  end.
Proof.
  intros Hno. pose proof (validateTags_cases URL_new tags url) as H.
  destruct (validateTags URL_new tags url) as [issues|e]; [|apply H].
  destruct H as (img & Himg & ->).
  rewrite !withTag_app, withTag_descriptionRules, withTag_generalRules by auto.
  rewrite (withTag_title_imageRules _ _ _ _ Himg), !app_nil_r.
  unfold titleRules. rewrite Hno. simpl.
  unfold withTag. rewrite filter_cons, decide_True by reflexivity.
  unfold Issue.missingTitle, JS.orElse. rewrite filter_nil.
  destruct (tags !! "title") as [[|c t]|]; reflexivity.
Qed.

(** C4.  An [og:title] of 96 characters gets the length warning, and
    one of 95 characters or fewer gets no warning about [og:title]: the
    boundary is at strictly more than 95. *)
Theorem og_title_length_boundary (URL_new : URL_ctor) (tags : OgTags) (url t : string) :
  tags !! "og:title" = Some t ->
  match validateTags URL_new tags url with
  | Ok issues =>
      (String.length t = 96 ->
       {| tag := "og:title";
          problem := "og:title is 96 chars. It'll get truncated on most platforms (keep under 60-95 chars).";
          fix_ := "Shorten your og:title to under 60 characters for best display.";
          severity := warning |} ∈ issues)
      /\ (String.length t <= 95 ->
          Forall (fun i => ~ isWarningOn "og:title" i) issues)
  | Throw _ => unresolvableImage URL_new tags url
  end.
Proof.
  intros Ht. pose proof (validateTags_cases URL_new tags url) as H.
  destruct (validateTags URL_new tags url) as [issues|e]; [|apply H].
  destruct H as (img & Himg & ->).
  assert (Hget : get tags "og:title" = t) by (unfold get; rewrite Ht; reflexivity).
  split.
  - intros Hlen. apply elem_of_app. left.
    unfold titleRules. rewrite Ht, Hget, Hlen.
    destruct t as [|c t']; [discriminate Hlen|]. simpl.
    unfold Issue.longTitle. rewrite Hget, Hlen. apply list_elem_of_here.
  - intros Hlen. rewrite !Forall_app. repeat split.
    + unfold titleRules. rewrite Ht, Hget.
      assert (E : (95 <? String.length t) = false) by (apply Nat.ltb_ge; lia).
      rewrite E. destruct t; simpl; repeat constructor.
      intros [_ Hs]. discriminate Hs.
    + apply not_warning_descriptionRules.
    + by eapply not_warning_title_imageRules.
    + apply not_warning_generalRules.
Qed.

Lemma not_warning_image_titleRules tags :
  Forall (fun i => ~ isWarningOn "og:image" i) (titleRules tags).
Proof.
  unfold titleRules, rule.
  repeat case_match; repeat constructor; intros [Ht _]; discriminate Ht.
Qed.

Lemma imageRules_Ok URL_new tags url img :
  imageRules URL_new tags url = Ok img ->
  (JS.truthy (tags !! "og:image") = false /\ img = [Issue.missingImage])
  \/ (JS.truthy (tags !! "og:image") = true
      /\ exists abs, absoluteRule URL_new tags url = Ok abs
         /\ img = abs ++ dimensionRules tags
                      ++ rule (negb (JS.truthy (tags !! "og:image:alt"))) Issue.missingAlt).
Proof.
  unfold imageRules.
  destruct (JS.truthy (tags !! "og:image")); simpl.
  - destruct (absoluteRule URL_new tags url) as [abs|]; simpl; [|discriminate].
    intros [= <-]. right. eauto.
  - intros [= <-]. left. auto.
Qed.

Lemma absoluteRule_Ok URL_new tags url abs :
  absoluteRule URL_new tags url = Ok abs ->
  abs = [] \/ exists u, URL_new (get tags "og:image") (Some url) = Some u
                        /\ abs = [Issue.relativeImage (href u)].
Proof.
  unfold absoluteRule.
  destruct (negb (JS.startsWith (get tags "og:image") "http")).
  - destruct (URL_new (get tags "og:image") (Some url)) as [u|]; [|discriminate].
    intros [= <-]. right. eauto.
  - intros [= <-]. left. reflexivity.
Qed.

(** The warning about the size of the image is there exactly when both
    dimensions are truthy and one of the two comparisons holds. *)
Lemma dimensionRules_warning tags :
  Exists (isWarningOn "og:image") (dimensionRules tags) <->
  JS.truthy (tags !! "og:image:width") = true
  /\ JS.truthy (tags !! "og:image:height") = true
  /\ (JS.lt (JS.parseInt (get tags "og:image:width")) 200
      || JS.lt (JS.parseInt (get tags "og:image:height")) 200) = true.
Proof.
  unfold dimensionRules, rule.
  destruct (JS.truthy (tags !! "og:image:width")),
           (JS.truthy (tags !! "og:image:height")); simpl;
    try (rewrite Exists_cons, Exists_nil; unfold isWarningOn; simpl;
         intuition discriminate).
  destruct (JS.lt _ 200 || JS.lt _ 200).
  - rewrite Exists_cons. unfold isWarningOn. simpl. intuition.
  - rewrite Exists_nil. intuition discriminate.
Qed.

(** C1 (as amended).  With [og:image] present: when [parseInt] turns
    both the width and the height into NaN, both comparisons with 200
    are false and the list holds no warning about the size of the
    image. *)
Theorem unparsable_dimensions_no_warning
    (URL_new : URL_ctor) (tags : OgTags) (url w h : string) :
  JS.truthy (tags !! "og:image") = true ->
  tags !! "og:image:width" = Some w ->
  tags !! "og:image:height" = Some h ->
  JS.parseInt w = None ->
  JS.parseInt h = None ->
  match validateTags URL_new tags url with
  | Ok issues => Forall (fun i => ~ isWarningOn "og:image" i) issues
  | Throw _ => unresolvableImage URL_new tags url
  end.
Proof.
  intros Himage Hw Hh Pw Ph. pose proof (validateTags_cases URL_new tags url) as H.
  destruct (validateTags URL_new tags url) as [issues|e]; [|apply H].
  destruct H as (img & Himg & ->).
  rewrite !Forall_app. repeat split.
  - apply not_warning_image_titleRules.
  - apply not_warning_descriptionRules.
  - apply imageRules_Ok in Himg as [[Hf _]|(_ & abs & Habs & ->)]; [congruence|].
    rewrite !Forall_app. repeat split.
    + apply absoluteRule_Ok in Habs as [->|(u & _ & ->)]; repeat constructor.
      intros [_ Hs]. discriminate Hs.
    + apply Forall_Exists_neg. rewrite dimensionRules_warning.
      unfold get. rewrite Hw, Hh. simpl. rewrite Pw, Ph. simpl.
      intros (_ & _ & Hc). discriminate Hc.
    + apply Forall_forall. intros j [_ ->]%rule_In [Ht _]. discriminate Ht.
  - apply not_warning_generalRules.
Qed.

(** C6.  An [og:image] of [/local.png] on the page
    [https://example.com/page], where [new URL] resolves the one against
    the other to [https://example.com/local.png]: the validator returns,
    and its list holds the error about [og:image] whose fix carries the
    resolved URL; the fix is given as the text it is, a [<meta>] element
    with the resolved URL as its content. *)
Theorem relative_image_issue (URL_new : URL_ctor) (tags : OgTags) (u : URL) :
  tags !! "og:image" = Some "/local.png" ->
  URL_new "/local.png" (Some "https://example.com/page") = Some u ->
  href u = "https://example.com/local.png" ->
  exists issues,
    validateTags URL_new tags "https://example.com/page" = Ok issues
    /\ {| tag := "og:image";
          problem := "og:image should be an absolute URL (starting with https://). Relative URLs won't work.";
          fix_ :=
            let quote := String (ascii_of_nat 34) EmptyString in
            "<meta property=" +:+ quote +:+ "og:image" +:+ quote
            +:+ " content=" +:+ quote +:+ "https://example.com/local.png" +:+ quote
            +:+ " />";
          severity := error |} ∈ issues.
Proof.
  intros Himage Hu Hhref. rewrite validateTags_rules.
  unfold imageRules, absoluteRule, get. rewrite Himage. simpl. rewrite Hu. simpl.
  eexists. split; [reflexivity|].
  apply elem_of_app; right. apply elem_of_app; right.
  rewrite Hhref. apply list_elem_of_here.
Qed.

(** ** Entity decoding *)

Lemma decodeHtmlEntities_chain (text : string) :
  decodeHtmlEntities text
  = foldl (fun t e => JS.replaceAll e.1 e.2 t) text entities.
Proof. reflexivity. Qed.

(** C7.  Decoding [&amp;amp;] gives [&amp;]: one level of the ampersand
    entity is resolved. *)
Theorem decode_double_encoded_amp : decodeHtmlEntities "&amp;amp;" = "&amp;".
Proof. reflexivity. Qed.

(** C8 (the code at the failing inputs).  Every entity of the chain
    other than [&amp;] is resolved in full when its ampersand is encoded
    once more: [&amp;lt;] becomes [<], not [&lt;].  The chain replaces
    [&amp;] first, so the [&lt;] it has just produced is seen by the
    replace after it. *)
Theorem double_encoded_entities_resolved :
  Forall (fun e =>
            decodeHtmlEntities (doubleEncoded e.1)
            = if bool_decide (e.1 = "&amp;") then e.1 else e.2)
         entities
  /\ decodeHtmlEntities "&amp;lt;" = "<"
  /\ decodeHtmlEntities "&amp;lt;" <> "&lt;".
Proof. split; [repeat constructor | split; [reflexivity | discriminate]]. Qed.

(** ** The fetcher *)

Section FetchProperties.

Variable URL_new : URL_ctor.
Variable net : Network.
Variable timeout : JS.number.

Lemma doFetch_limit fetchUrl redirects :
  5 < redirects ->
  doFetch URL_new net timeout fetchUrl redirects = Rejected (Error "Too many redirects").
Proof.
  intros H. simp doFetch. destruct (decide (5 < redirects)); [reflexivity | lia].
Qed.

Lemma doFetch_redirect fetchUrl next redirects :
  redirects <= 5 ->
  redirectsTo URL_new net timeout redirects fetchUrl next ->
  doFetch URL_new net timeout fetchUrl redirects
  = doFetch URL_new net timeout next (redirects + 1).
Proof.
  intros Hle (status & hs & body & location & Hans & Hred & Hloc & Hne & Hnext).
  remember (doFetch URL_new net timeout next (redirects + 1)) as after eqn:Hafter.
  simp doFetch. destruct (decide (5 < redirects)); [lia|]. simpl.
  unfold answer in Hans.
  destruct (URL_new fetchUrl None) as [parsed|]; [|discriminate].
  injection Hans as ->. rewrite Hred, Hloc.
  destruct location as [|c l]; [congruence|].
  destruct (JS.startsWith (String c l) "http").
  - injection Hnext as <-. by subst after.
  - destruct (URL_new (String c l) (Some fetchUrl)) as [u|]; [|discriminate].
    injection Hnext as <-. by subst after.
Qed.

Lemma doFetch_serves fetchUrl redirects hs body :
  redirects <= 5 ->
  serves URL_new net timeout redirects fetchUrl hs body ->
  doFetch URL_new net timeout fetchUrl redirects
  = Resolved {| statusCode := 200; headers := responseHeaders hs;
                body := body; finalUrl := fetchUrl |}.
Proof.
  intros Hle Hans. simp doFetch. destruct (decide (5 < redirects)); [lia|]. simpl.
  unfold serves, answer in Hans.
  destruct (URL_new fetchUrl None) as [parsed|]; [|discriminate].
  injection Hans as ->. reflexivity.
Qed.

Lemma doFetch_chain n u k u' :
  redirectChain URL_new net timeout n u k u' ->
  n + k <= 6 ->
  doFetch URL_new net timeout u n = doFetch URL_new net timeout u' (n + k).
Proof.
  induction 1 as [n u | n u next k u' Hhop _ IH]; intros Hle.
  - by rewrite Nat.add_0_r.
  - rewrite (doFetch_redirect u next) by (lia || assumption).
    rewrite Nat.add_1_r, IH by lia. f_equal. lia.
Qed.

(** C5.  The cap is five hops: six chained redirects reject the fetch
    with [Too many redirects], and five or fewer, followed by a 200
    response, resolve it with the URL of the last hop as [finalUrl]. *)
Theorem redirect_cap (targetUrl : string) :
  (forall u6,
     redirectChain URL_new net timeout 0 targetUrl 6 u6 ->
     fetchUrl URL_new net timeout targetUrl = Rejected (Error "Too many redirects"))
  /\ (forall k last hs body,
        k <= 5 ->
        redirectChain URL_new net timeout 0 targetUrl k last ->
        serves URL_new net timeout k last hs body ->
        fetchUrl URL_new net timeout targetUrl
        = Resolved {| statusCode := 200; headers := responseHeaders hs;
                      body := body; finalUrl := last |}).
Proof.
  unfold fetchUrl. split.
  - intros u6 Hchain. rewrite (doFetch_chain _ _ _ _ Hchain) by lia.
    apply doFetch_limit. simpl. lia.
  - intros k last hs body Hk Hchain Hserves.
    rewrite (doFetch_chain _ _ _ _ Hchain) by lia.
    by apply doFetch_serves.
Qed.

(** A fetch that resolves has parsed its final URL. *)
Lemma doFetch_finalUrl fetchUrl redirects r :
  doFetch URL_new net timeout fetchUrl redirects = Resolved r ->
  is_Some (URL_new (finalUrl r) None).
Proof.
  remember (6 - redirects) as budget eqn:Hb.
  revert fetchUrl redirects Hb.
  induction budget as [budget IH] using lt_wf_ind. intros fetchUrl redirects -> Hr.
  rewrite doFetch_equation_1 in Hr. unfold doFetch_unfold_clause_1 in Hr.
  destruct (decide (5 < redirects)) as [|Hle]; [discriminate|].
  destruct (URL_new fetchUrl None) as [parsed|] eqn:Eu.
  2: { unfold thrown in Hr. by destruct (redirects =? 0). }
  destruct (net redirects _ _) as [err| |status hs body|status hs]; try discriminate.
  - assert (Hres : Resolved {| statusCode := status; headers := responseHeaders hs;
                               body := body; finalUrl := fetchUrl |} = Resolved r ->
                   is_Some (URL_new (finalUrl r) None)).
    { intros [= <-]. simpl. rewrite Eu. eauto. }
    cbv zeta in Hr.
    destruct (isRedirect status); [|exact (Hres Hr)].
    destruct (header "location" hs) as [[[|c l]|vs]|];
      try exact (Hres Hr); try discriminate.
    destruct (JS.startsWith (String c l) "http").
    + eapply (IH (6 - (redirects + 1))); [lia | reflexivity | exact Hr].
    + destruct (URL_new (String c l) (Some fetchUrl)); [|discriminate].
      eapply (IH (6 - (redirects + 1))); [lia | reflexivity | exact Hr].
  - destruct (isRedirect status); [|discriminate].
    destruct (header "location" hs) as [[[|c l]|vs]|]; try discriminate.
    destruct (JS.startsWith (String c l) "http").
    + eapply (IH (6 - (redirects + 1))); [lia | reflexivity | exact Hr].
    + destruct (URL_new (String c l) (Some fetchUrl)); [|discriminate].
      eapply (IH (6 - (redirects + 1))); [lia | reflexivity | exact Hr].
Qed.

End FetchProperties.

(** ** The command line and the exit code *)

Lemma startsWith_dashes (s : string) :
  JS.startsWith s "--" = true -> JS.startsWith s "-" = true.
Proof.
  unfold JS.startsWith. destruct s as [|c s]; [discriminate|].
  cbn [String.prefix]. destruct (ascii_dec "-" c); [|discriminate].
  intros _. destruct s; reflexivity.
Qed.

(** The loop over a vector that continues with a token that starts with
    a dash: what comes before that token is parsed on its own. *)
Lemma parseArgs_loop_app (pre : list string) (dash : string) (rest : list string) :
  JS.startsWith dash "-" = true ->
  forall args positional,
    parseArgs_loop (pre ++ dash :: rest) args positional
    = parseArgs_loop (dash :: rest)
        (parseArgs_loop pre args positional).1 (parseArgs_loop pre args positional).2.
Proof.
  intros Hdash.
  induction pre as [pre IH] using (induction_ltof1 _ (@length string)).
  unfold ltof in IH. intros args positional.
  destruct pre as [|arg pre]; [reflexivity|].
  cbn [app parseArgs_loop].
  destruct (JS.startsWith arg "--").
  - destruct (JS.indexOf "=" arg).
    + apply IH. simpl. lia.
    + destruct pre as [|next pre].
      * cbn [app]. rewrite Hdash. cbn [negb]. apply (IH []). simpl. lia.
      * cbn [app]. destruct (negb (JS.startsWith next "-")).
        -- apply IH. simpl. lia.
        -- apply (IH (next :: pre)). simpl. lia.
  - apply IH. simpl. lia.
Qed.

Lemma someError_Exists (issues : list OgIssue) :
  someError issues = true <-> Exists (fun i => severity i = error) issues.
Proof.
  unfold someError. rewrite existsb_exists, Exists_exists.
  split; intros (i & Hin & Hs); exists i.
  - split; [by apply list_elem_of_In | by apply bool_decide_eq_true in Hs].
  - split; [by apply list_elem_of_In | by apply bool_decide_eq_true].
Qed.

Lemma count_error_zero (issues : list OgIssue) :
  count error issues = 0 <-> Forall (fun i => severity i <> error) issues.
Proof.
  unfold count. induction issues as [|i issues IH]; [by split|].
  rewrite filter_cons, Forall_cons. destruct (decide (severity i = error)); simpl.
  - split; [discriminate | by intros [? _]].
  - rewrite IH. tauto.
Qed.

Section MainProperties.

Variable URL_new : URL_ctor.
Variable net : Network.

Lemma checkUrl_url targetUrl timeout result :
  checkUrl URL_new net targetUrl timeout = Resolved result ->
  is_Some (URL_new (url result) None).
Proof.
  unfold checkUrl, fetchUrl.
  destruct (doFetch URL_new net timeout targetUrl 0) as [response| | |] eqn:E;
    try discriminate.
  destruct (parseHtml (body response)); [|discriminate].
  destruct (validateTags URL_new _ _); [|discriminate].
  intros [= <-]. simpl. by eapply doFetch_finalUrl.
Qed.

(** C2.  In a run that reaches a validation result, validity is the
    absence of issues of severity [error]: the [valid] field of the JSON
    report is true exactly then, and with [--ci] the exit code is 1 when
    there is such an issue and 0 when there is none, whatever the
    warnings and suggestions. *)
Theorem validity_is_no_error (argv : list string) (result : CheckResult) :
  validationRun URL_new net argv result ->
  let args := parseArgs argv in
  let run := main URL_new net argv in
  let noError := Forall (fun i => severity i <> error) (issues result) in
  (truthyArg (args !! "json") = true ->
   exists report,
     outputs run = [Json report]
     /\ json_issues report = issues result
     /\ (valid report = true <-> noError))
  /\ (truthyArg (args !! "ci") = true ->
      (noError -> exitCode run = 0) /\ (~ noError -> exitCode run = 1)).
Proof.
  intros (Hhelp & t & parsedUrl & Hurl & Ht & Hparsed & Hcheck) args run noError.
  assert (Hrun : run =
    let jsonOutput := truthyArg (args !! "json") in
    let intro := if negb jsonOutput then [Header (href parsedUrl)] else [] in
    match report URL_new jsonOutput result with
    | (out, Some err) =>
        {| outputs := intro ++ out ++ [handler jsonOutput err]; exitCode := 1 |}
    | (out, None) =>
        {| outputs := intro ++ out;
           exitCode := if truthyArg (args !! "ci") && someError (issues result)
                       then 1 else 0 |}
    end).
  { subst run args. unfold main. rewrite Hhelp, Hurl. cbn [truthyArg].
    destruct (String.eqb_spec t ""); [contradiction|]. cbn [negb].
    rewrite Hparsed, Hcheck. reflexivity. }
  assert (Hreport : (report URL_new (truthyArg (args !! "json")) result).2 = None).
  { unfold report. destruct (truthyArg (args !! "json")); [reflexivity|].
    unfold renderPreviews.
    destruct (checkUrl_url _ _ _ Hcheck) as [u Hu]. rewrite Hu.
    by destruct (JS.truthy (tags result !! "og:site_name")). }
  assert (Hno : someError (issues result) = false <-> noError).
  { subst noError. rewrite <- not_true_iff_false, someError_Exists.
    rewrite <- Forall_Exists_neg. reflexivity. }
  split.
  - intros Hjson. rewrite Hrun, Hjson. cbn.
    eexists. split; [reflexivity|]. split; [reflexivity|]. cbn.
    rewrite Nat.eqb_eq. apply count_error_zero.
  - intros Hci. rewrite Hrun. cbv zeta.
    destruct (report URL_new _ result) as [out [err|]]; [discriminate Hreport|].
    rewrite Hci. cbn. split.
    + intros H. apply Hno in H. by rewrite H.
    + intros H. destruct (someError (issues result)); [reflexivity|].
      exfalso. apply H, Hno. reflexivity.
Qed.

(** C10.  A [--flag] token without [=] that is followed by a token not
    starting with [-] takes that token as its value: the loop goes on
    after the two tokens with the value stored under the name of the
    flag (any name but the exotic [__proto__]).  So for the vector
    [--json U] the option [json] is the string [U], no URL is recorded,
    and [main] reports the usage error and exits with 1. *)
Theorem flag_consumes_next_token :
  (forall pre flag value rest args positional,
     JS.startsWith flag "--" = true ->
     JS.indexOf "=" flag = None ->
     JS.startsWith value "-" = false ->
     parseArgs_loop (pre ++ flag :: value :: rest) args positional
     = parseArgs_loop rest
         (JS.obj_set (JS.slice_from 2 flag) (VStr value)
            (parseArgs_loop pre args positional).1)
         (parseArgs_loop pre args positional).2)
  /\ (forall flag value (args : Args),
        JS.slice_from 2 flag <> "__proto__" ->
        JS.obj_set (JS.slice_from 2 flag) (VStr value) args !! JS.slice_from 2 flag
        = Some (VStr value))
  /\ (forall U,
        JS.startsWith U "-" = false ->
        parseArgs ["--json"; U] = {["json" := VStr U]}
        /\ parseArgs ["--json"; U] !! "_url" = None
        /\ main URL_new net ["--json"; U]
           = {| outputs := [UrlRequired]; exitCode := 1 |}).
Proof.
  split; [|split].
  - intros pre flag value rest args positional Hflag Heq Hvalue.
    rewrite parseArgs_loop_app by (by apply startsWith_dashes).
    cbn [parseArgs_loop]. rewrite Hflag, Heq, Hvalue. reflexivity.
  - intros flag value args Hne. unfold JS.obj_set.
    destruct (String.eqb_spec (JS.slice_from 2 flag) "__proto__"); [contradiction|].
    apply lookup_insert_eq.
  - intros U HU.
    assert (Hargs : parseArgs ["--json"; U] = {["json" := VStr U]}).
    { unfold parseArgs. cbn [parseArgs_loop].
      change (JS.startsWith "--json" "--") with true.
      change (JS.indexOf "=" "--json") with (@None nat).
      cbv iota. rewrite HU. reflexivity. }
    split; [exact Hargs|].
    unfold main. rewrite Hargs. split; reflexivity.
Qed.

End MainProperties.

(** ** The matcher *)

Section MatcherProperties.

Variable ignoreCase : bool.

Lemma star_continues greedy min a s k x :
  Regex.star ignoreCase greedy min a s k = Some x ->
  exists s', k s' = Some x /\ String.length s' <= String.length s.
Proof.
  revert min. induction s as [|c s IH]; intros min.
  - destruct min; [|discriminate]. simpl.
    destruct greedy; [|destruct (k "") eqn:E]; intros H; try discriminate;
      exists ""; (split; [congruence | simpl; lia]).
  - destruct min as [|min]; simpl.
    + destruct greedy.
      * destruct (Regex.atomMatches ignoreCase a c).
        -- destruct (Regex.star ignoreCase true 0 a s k) eqn:E.
           ++ intros [= <-]. apply IH in E as (s' & ? & ?). exists s'. split; [done|simpl; lia].
           ++ intros H. exists (String c s). split; [done|simpl; lia].
        -- intros H. exists (String c s). split; [done|simpl; lia].
      * destruct (k (String c s)) eqn:Ek.
        -- intros [= <-]. exists (String c s). split; [done|simpl; lia].
        -- destruct (Regex.atomMatches ignoreCase a c); [|discriminate].
           intros E. apply IH in E as (s' & ? & ?). exists s'. split; [done|simpl; lia].
    + destruct (Regex.atomMatches ignoreCase a c); [|discriminate].
      intros E. apply IH in E as (s' & ? & ?). exists s'. split; [done|simpl; lia].
Qed.

Lemma step_continues a s k x :
  Regex.step ignoreCase a s k = Some x ->
  exists s', k s' = Some x /\ String.length s' < String.length s.
Proof.
  destruct s as [|c s]; simpl; [discriminate|].
  destruct (Regex.atomMatches ignoreCase a c); [|discriminate].
  intros H. exists s. split; [done|simpl; lia].
Qed.

(** A successful run has called its continuation, on a suffix no
    longer than the input and with captures that keep the groups
    already set and hold every group that lies on all paths. *)
Lemma run_continues i r :
  forall s caps k x,
    Regex.run ignoreCase r s caps k = Some x ->
    exists s' caps',
      k s' caps' = Some x
      /\ String.length s' <= String.length s
      /\ (is_Some (caps !! i) \/ Regex.sets i r = true -> is_Some (caps' !! i)).
Proof.
  induction r as [|a|r1 IH1 r2 IH2|r1 IH1 r2 IH2|greedy min a|a|j r1 IH1];
    intros s caps k x; simpl.
  - intros H. exists s, caps. split; [done|]. split; [lia|]. intros [?|?]; done.
  - intros (s' & H & Hl)%step_continues. exists s', caps.
    split; [done|]. split; [lia|]. intros [?|?]; done.
  - intros (s1 & caps1 & H1 & Hl1 & Hc1)%IH1.
    apply IH2 in H1 as (s2 & caps2 & H2 & Hl2 & Hc2).
    exists s2, caps2. split; [done|]. split; [lia|].
    intros [?|[?|?]%orb_true_iff]; auto.
  - destruct (Regex.run ignoreCase r1 s caps k) eqn:E1.
    + intros [= <-]. apply IH1 in E1 as (s1 & caps1 & H1 & Hl1 & Hc1).
      exists s1, caps1. split; [done|]. split; [lia|].
      intros [?|[? _]%andb_true_iff]; auto.
    + intros (s2 & caps2 & H2 & Hl2 & Hc2)%IH2.
      exists s2, caps2. split; [done|]. split; [lia|].
      intros [?|[_ ?]%andb_true_iff]; auto.
  - intros (s' & H & Hl)%star_continues. exists s', caps.
    split; [done|]. split; [lia|]. intros [?|?]; done.
  - destruct (Regex.step ignoreCase a s (fun s' => k s' caps)) eqn:E.
    + intros [= <-]. apply step_continues in E as (s' & H & Hl).
      exists s', caps. split; [done|]. split; [lia|]. intros [?|?]; done.
    + intros H. exists s, caps. split; [done|]. split; [lia|]. intros [?|?]; done.
  - intros (s1 & caps1 & H1 & Hl1 & Hc1)%IH1.
    eexists s1, _. split; [exact H1|]. split; [lia|].
    intros Hi. destruct (decide (j = i)) as [->|Hne].
    + rewrite lookup_insert_eq. eauto.
    + rewrite lookup_insert_ne by done. apply Hc1.
      destruct Hi as [?|[?%Nat.eqb_eq|?]%orb_true_iff]; auto; congruence.
Qed.

Lemma matchAt_sets i r s m :
  Regex.matchAt ignoreCase r s = Some m ->
  Regex.sets i r = true ->
  is_Some (m.2 !! i).
Proof.
  intros (s' & caps' & [= <-] & _ & Hc)%(run_continues i) Hsets. simpl. auto.
Qed.

Lemma matchAt_length r s m :
  Regex.matchAt ignoreCase r s = Some m -> String.length m.1 <= String.length s.
Proof. by intros (s' & caps' & [= <-] & Hl & _)%(run_continues 0). Qed.

Lemma search_sets i r s m :
  Regex.search ignoreCase r s = Some m ->
  Regex.sets i r = true ->
  is_Some (m.2 !! i).
Proof.
  intros H Hsets. induction s as [|c s IH]; simpl in H.
  - destruct (Regex.matchAt ignoreCase r "") eqn:E; [|discriminate].
    injection H as <-. by eapply matchAt_sets.
  - destruct (Regex.matchAt ignoreCase r (String c s)) eqn:E.
    + injection H as <-. by eapply matchAt_sets.
    + auto.
Qed.

Lemma execAll_sets i r :
  Regex.sets i r = true ->
  forall s skip, Forall (fun m => is_Some (m.2 !! i)) (Regex.execAll ignoreCase r skip s).
Proof.
  intros Hsets. induction s as [|c s IH]; intros skip; simpl; [constructor|].
  destruct skip; [|apply IH].
  destruct (Regex.matchAt ignoreCase r (String c s)) as [[rest caps]|] eqn:E; [|apply IH].
  constructor; [|apply IH].
  by eapply (matchAt_sets i r _ (rest, caps)).
Qed.

End MatcherProperties.

(** ** The extractor *)

(** A pattern that begins with a character takes at least that
    character. *)
Lemma matchAt_consumes ignoreCase a r1 r2 (s : string) (m : Regex.state) :
  Regex.matchAt ignoreCase (Regex.Seq (Regex.Seq (Regex.Atom a) r1) r2) s = Some m ->
  String.length m.1 < String.length s.
Proof.
  unfold Regex.matchAt. cbn [Regex.run].
  intros (s1 & H & Hl)%step_continues.
  apply (run_continues ignoreCase 0) in H as (s2 & caps2 & H & Hl2 & _).
  apply (run_continues ignoreCase 0) in H as (s3 & caps3 & [= <-] & Hl3 & _).
  simpl. lia.
Qed.

(** A match of the [<meta>] pattern is never empty, so the search after
    it resumes further on, as [execAll] has it. *)
Lemma metaRegex_consumes (s : string) (m : Regex.state) :
  Regex.matchAt true Patterns.metaRegex s = Some m ->
  String.length m.1 < String.length s.
Proof. apply matchAt_consumes. Qed.

Lemma defined_is_Some (o : option string) :
  is_Some o -> exists v, defined o = Ok v.
Proof. intros [v ->]. by exists v. Qed.

Lemma match_sets (s : string) (r : Regex.regex) (m : Regex.state) :
  match_ s r = Some m -> Regex.sets 1 r = true -> is_Some (group m 1).
Proof. apply search_sets. Qed.

(** The body of the loop either leaves the object alone or stores one
    value, and what it stores does not depend on the object. *)
Lemma metaBody_cases (m : Regex.state) :
  is_Some (group m 1) ->
  (forall tags, metaBody tags m = Ok tags)
  \/ exists key value, forall tags, metaBody tags m = Ok (JS.obj_set key value tags).
Proof.
  intros [attrs Hattrs]. unfold metaBody. rewrite Hattrs. simpl.
  destruct (match_ attrs Patterns.propRe) as [propMatch|] eqn:Ep.
  - destruct (match_sets _ _ _ Ep eq_refl) as [k Hk]. rewrite Hk. simpl.
    destruct (match_ attrs Patterns.contentRe) as [contentMatch|] eqn:Ec; [|by left].
    destruct (negb (String.eqb (JS.toLowerCase k) "")); [|by left].
    destruct (match_sets _ _ _ Ec eq_refl) as [c Hc]. rewrite Hc. simpl.
    right. eauto.
  - simpl. destruct (match_ attrs Patterns.contentRe); by left.
Qed.

Lemma obj_set_is_Some {V : Type} (k k' : string) (v : V) (o : gmap string V) :
  is_Some (JS.obj_set k v o !! k') ->
  is_Some (o !! k') \/ (k' = k /\ is_Some (JS.obj_set k v (∅ : gmap string V) !! k')).
Proof.
  unfold JS.obj_set. destruct (String.eqb k "__proto__"); [auto|].
  destruct (decide (k = k')) as [->|Hne].
  - right. rewrite lookup_insert_eq. eauto.
  - rewrite lookup_insert_ne by done. auto.
Qed.

Lemma forEach_metaBody (ms : list Regex.state) :
  Forall (fun m => is_Some (group m 1)) ms ->
  forall tags, exists tags',
    forEach metaBody ms tags = Ok tags'
    /\ forall k, is_Some (tags' !! k) ->
         is_Some (tags !! k)
         \/ exists m written, m ∈ ms /\ metaBody ∅ m = Ok written /\ is_Some (written !! k).
Proof.
  induction 1 as [|m ms Hm _ IH]; intros tags; simpl.
  - exists tags. auto.
  - destruct (metaBody_cases m Hm) as [Hsame|(key & value & Hset)].
    + rewrite Hsame. simpl. destruct (IH tags) as (tags' & -> & Hk).
      exists tags'. split; [done|]. intros k [?|(m' & w & ? & ? & ?)]%Hk; [auto|].
      right. exists m', w. split; [by apply list_elem_of_further | done].
    + rewrite Hset. simpl.
      destruct (IH (JS.obj_set key value tags)) as (tags' & -> & Hk).
      exists tags'. split; [done|].
      intros k [[?|[-> ?]]%obj_set_is_Some|(m' & w & ? & ? & ?)]%Hk; [auto| |].
      * right. exists m, (JS.obj_set key value ∅).
        split; [apply list_elem_of_here|]. split; [apply Hset | done].
      * right. exists m', w. split; [by apply list_elem_of_further | done].
Qed.

Lemma store_is_Some (k k' : string) (m : Regex.state) (tags : OgTags) :
  is_Some (store k m tags !! k') -> is_Some (tags !! k') \/ k' = k.
Proof.
  unfold store. destruct (group m 1); [|auto].
  intros [?|[? _]]%obj_set_is_Some; auto.
Qed.

Lemma orMatch_sets (s : string) (r1 r2 : Regex.regex) (m : Regex.state) :
  orMatch (match_ s r1) (match_ s r2) = Some m ->
  Regex.sets 1 r1 = true -> Regex.sets 1 r2 = true ->
  is_Some (group m 1).
Proof.
  unfold orMatch. destruct (match_ s r1) eqn:E1.
  - intros [= <-] H1 _. by eapply match_sets.
  - intros E2 _ H2. by eapply match_sets.
Qed.

(** [parseHtml] returns, and every key of its object was stored by a
    pattern that matched. *)
Lemma parseHtml_written (html : string) :
  exists tags,
    parseHtml html = Ok tags
    /\ forall k, is_Some (tags !! k) -> written html k.
Proof.
  unfold parseHtml, written, writesMeta.
  (* the title *)
  assert (exists tags1,
    match match_ html Patterns.titleRe with
    | Some titleMatch =>
        t ← defined (group titleMatch 1);
        Ok (JS.obj_set "title" (decodeHtmlEntities (JS.trim t)) (∅ : OgTags))
    | None => Ok ∅
    end = Ok tags1
    /\ forall k, is_Some (tags1 !! k) ->
         k = "title" /\ is_Some (match_ html Patterns.titleRe))
    as (tags1 & -> & H1).
  { destruct (match_ html Patterns.titleRe) as [m|] eqn:E.
    - destruct (match_sets _ _ _ E eq_refl) as [t Ht]. rewrite Ht. simpl.
      eexists. split; [reflexivity|].
      intros k [Hk|[-> _]]%obj_set_is_Some; [|by eauto].
      rewrite lookup_empty in Hk. by destruct Hk.
    - exists ∅. split; [reflexivity|]. intros k Hk.
      rewrite lookup_empty in Hk. by destruct Hk. }
  simpl.
  (* the meta elements *)
  destruct (forEach_metaBody (Regex.execAll true Patterns.metaRegex 0 html)
              (execAll_sets true 1 Patterns.metaRegex eq_refl html 0) tags1)
    as (tags2 & -> & H2).
  simpl.
  (* the description *)
  assert (exists tags3,
    match orMatch (match_ html Patterns.descRe1) (match_ html Patterns.descRe2) with
    | Some descMatch =>
        d ← defined (group descMatch 1);
        Ok (JS.obj_set "description" (decodeHtmlEntities d) tags2)
    | None => Ok tags2
    end = Ok tags3
    /\ forall k, is_Some (tags3 !! k) ->
         is_Some (tags2 !! k)
         \/ (k = "description"
             /\ is_Some (orMatch (match_ html Patterns.descRe1)
                                 (match_ html Patterns.descRe2))))
    as (tags3 & -> & H3).
  { destruct (orMatch _ _) as [m|] eqn:E.
    - destruct (orMatch_sets _ _ _ _ E eq_refl eq_refl) as [d Hd]. rewrite Hd. simpl.
      eexists. split; [reflexivity|].
      intros k [?|[-> _]]%obj_set_is_Some; eauto.
    - exists tags2. auto. }
  simpl. eexists. split; [reflexivity|].
  intros k Hk.
  assert (Hfav : is_Some
            (match orMatch (match_ html Patterns.canonicalRe1)
                           (match_ html Patterns.canonicalRe2) with
             | Some canonicalMatch => store "canonical" canonicalMatch tags3
             | None => tags3
             end !! k)
          \/ (k = "favicon" /\ is_Some (match_ html Patterns.faviconRe))).
  { destruct (match_ html Patterns.faviconRe); [|auto].
    apply store_is_Some in Hk as [? | ->]; eauto. }
  destruct Hfav as [Hcan|?]; [|tauto].
  assert (Hdesc : is_Some (tags3 !! k)
          \/ (k = "canonical"
              /\ is_Some (orMatch (match_ html Patterns.canonicalRe1)
                                  (match_ html Patterns.canonicalRe2)))).
  { destruct (orMatch (match_ html Patterns.canonicalRe1) _); [|auto].
    apply store_is_Some in Hcan as [? | ->]; eauto. }
  destruct Hdesc as [H|?]; [|tauto].
  apply H3 in H as [H|?]; [|tauto].
  apply H2 in H as [H|?]; [|tauto].
  apply H1 in H. tauto.
Qed.

(** ** Input without markup *)

Lemma sameChar_lt (c : ascii) :
  Regex.sameChar true "<" c = Ascii.eqb c "<".
Proof. destruct c as [[] [] [] [] [] [] [] []]; reflexivity. Qed.

Lemma matchAt_no_lt r1 r2 (s : string) :
  JS.indexOf "<" s = None ->
  Regex.matchAt true (Regex.Seq (Regex.Seq (Regex.Atom (Regex.Lit "<")) r1) r2) s = None.
Proof.
  unfold Regex.matchAt. cbn [Regex.run]. destruct s as [|c s]; [reflexivity|].
  cbn [JS.indexOf Regex.step Regex.atomMatches]. rewrite sameChar_lt.
  by destruct (Ascii.eqb c "<").
Qed.

Lemma indexOf_tail (c d : ascii) (s : string) :
  JS.indexOf c (String d s) = None -> JS.indexOf c s = None.
Proof.
  cbn [JS.indexOf]. destruct (Ascii.eqb d c); [discriminate|].
  by destruct (JS.indexOf c s).
Qed.

Lemma search_no_lt r1 r2 (s : string) :
  JS.indexOf "<" s = None ->
  Regex.search true (Regex.Seq (Regex.Seq (Regex.Atom (Regex.Lit "<")) r1) r2) s = None.
Proof.
  induction s as [|c s IH]; intros H; cbn [Regex.search];
    rewrite matchAt_no_lt by done; [reflexivity|].
  apply IH. by eapply indexOf_tail.
Qed.

Lemma execAll_no_lt r1 r2 (s : string) :
  JS.indexOf "<" s = None ->
  Regex.execAll true (Regex.Seq (Regex.Seq (Regex.Atom (Regex.Lit "<")) r1) r2) 0 s = [].
Proof.
  induction s as [|c s IH]; intros H; [reflexivity|].
  cbn [Regex.execAll]. rewrite matchAt_no_lt by done.
  apply IH. by eapply indexOf_tail.
Qed.

Lemma not_written_no_lt (html k : string) :
  JS.indexOf "<" html = None -> ~ written html k.
Proof.
  intros H. unfold written, writesMeta, match_.
  change Patterns.metaRegex
    with (Regex.Seq (Regex.Seq (Regex.Atom (Regex.Lit "<")) (Regex.lit "meta"))
            (Regex.cat [Patterns.ws1;
                        Regex.Group 1 (Regex.Star false 1 (Regex.NoneOf ">"));
                        Patterns.close])).
  rewrite execAll_no_lt by done.
  rewrite (search_no_lt _ _ html H : Regex.search true Patterns.titleRe html = None).
  rewrite (search_no_lt _ _ html H : Regex.search true Patterns.descRe1 html = None).
  rewrite (search_no_lt _ _ html H : Regex.search true Patterns.descRe2 html = None).
  rewrite (search_no_lt _ _ html H : Regex.search true Patterns.canonicalRe1 html = None).
  rewrite (search_no_lt _ _ html H : Regex.search true Patterns.canonicalRe2 html = None).
  rewrite (search_no_lt _ _ html H : Regex.search true Patterns.faviconRe html = None).
  simpl.
  intros [[_ []]|[(m & w & Hm & _)|[[_ []]|[[_ []]|[_ []]]]]]; try discriminate.
  by apply elem_of_nil in Hm.
Qed.

(** C9.  The extractor is total: on every input [parseHtml] returns an
    object, without an exception; every key of that object was stored by
    a pattern that matched, so a tag that is absent or not matched
    leaves its key missing; and an input without any [<] gives the empty
    object. *)
Theorem parseHtml_total (html : string) :
  (exists tags,
     parseHtml html = Ok tags
     /\ forall k, ~ written html k -> tags !! k = None)
  /\ (JS.indexOf "<" html = None -> parseHtml html = Ok ∅).
Proof.
  destruct (parseHtml_written html) as (tags & Hparse & Hkeys).
  split.
  - exists tags. split; [exact Hparse|].
    intros k Hk. apply eq_None_not_Some. intros Hs. apply Hk, Hkeys, Hs.
  - intros Hno. rewrite Hparse. f_equal. apply map_empty. intros k.
    apply eq_None_not_Some. intros Hs. by apply (not_written_no_lt html k Hno), Hkeys.
Qed.

(** ** More on the validator *)









Lemma rule_nil (c : bool) (i : OgIssue) : rule c i = [] <-> c = false.
Proof. destruct c; simpl; split; congruence. Qed.

Lemma titleRules_nil tags :
  titleRules tags = [] <->
  JS.truthy (tags !! "og:title") = true
  /\ (String.length (get tags "og:title") <=? 95) = true.
Proof.
  unfold titleRules. destruct (JS.truthy (tags !! "og:title")); simpl.
  - rewrite rule_nil, Nat.ltb_ge, Nat.leb_le. tauto.
  - split; [discriminate | intros [? _]; discriminate].
Qed.

Lemma descriptionRules_nil tags :
  descriptionRules tags = [] <->
  JS.truthy (tags !! "og:description") = true
  /\ (String.length (get tags "og:description") <=? 300) = true.
Proof.
  unfold descriptionRules. destruct (JS.truthy (tags !! "og:description")); simpl.
  - rewrite rule_nil, Nat.ltb_ge, Nat.leb_le. tauto.
  - split; [discriminate | intros [? _]; discriminate].
Qed.

Lemma imageRules_nil URL_new tags url :
  imageRules URL_new tags url = Ok [] <->
  JS.truthy (tags !! "og:image") = true
  /\ JS.startsWith (get tags "og:image") "http" = true
  /\ JS.truthy (tags !! "og:image:width") = true
  /\ JS.truthy (tags !! "og:image:height") = true
  /\ (JS.lt (JS.parseInt (get tags "og:image:width")) 200
      || JS.lt (JS.parseInt (get tags "og:image:height")) 200) = false
  /\ JS.truthy (tags !! "og:image:alt") = true.
Proof.
  unfold imageRules, absoluteRule, dimensionRules. cbv zeta.
  destruct (JS.truthy (tags !! "og:image")); simpl.
  2: { split; [discriminate | intros [? _]; discriminate]. }
  destruct (JS.startsWith (get tags "og:image") "http"); simpl.
  2: { destruct (URL_new _ _); simpl;
         (split; [discriminate | intros (_ & ? & _); discriminate]). }
  destruct (JS.truthy (tags !! "og:image:width")); simpl.
  2: { split; [discriminate | intros (_ & _ & ? & _); discriminate]. }
  destruct (JS.truthy (tags !! "og:image:height")); simpl.
  2: { split; [discriminate | intros (_ & _ & _ & ? & _); discriminate]. }
  destruct (JS.lt _ 200 || JS.lt _ 200); simpl.
  { split; [discriminate | intros (_ & _ & _ & _ & ? & _); discriminate]. }
  destruct (JS.truthy (tags !! "og:image:alt")); simpl.
  - tauto.
  - split; [discriminate | intros (_ & _ & _ & _ & _ & ?); discriminate].
Qed.

Lemma generalRules_nil tags url :
  JS.truthy (tags !! "og:title") = true ->
  JS.truthy (tags !! "og:image") = true ->
  generalRules tags url = [] <->
  JS.truthy (tags !! "og:url") = true
  /\ JS.truthy (tags !! "og:type") = true
  /\ JS.truthy (tags !! "twitter:card") = true
  /\ JS.truthy (tags !! "title") = true
  /\ JS.truthy (tags !! "description") = true
  /\ JS.truthy (tags !! "canonical") = true.
Proof.
  intros Ht Hi. unfold generalRules. rewrite Ht, Hi. simpl.
  rewrite !andb_false_r. simpl.
  rewrite !app_nil, !rule_nil, !negb_false_iff. tauto.
Qed.

(** X2.  The validator returns the empty list, the case in which the
    report says that all is good, exactly for the maps in which the
    twelve tags of [complete] are truthy, both texts are within their
    lengths, [og:image] starts with [http] and neither dimension
    compares below 200.  [twitter:title] and [twitter:image] are not
    needed for it. *)
Theorem validator_all_good (URL_new : URL_ctor) (tags : OgTags) (url : string) :
  validateTags URL_new tags url = Ok [] <-> complete tags = true.
Proof.
  unfold complete. rewrite !andb_true_iff, negb_true_iff.
  split.
  - intros H. pose proof (validateTags_cases URL_new tags url) as Hc.
    rewrite H in Hc. destruct Hc as (img & Himg & Hnil).
    symmetry in Hnil.
    apply app_nil in Hnil as [HT Hnil]. apply app_nil in Hnil as [HD Hnil].
    apply app_nil in Hnil as [-> HG].
    apply titleRules_nil in HT. apply descriptionRules_nil in HD.
    apply imageRules_nil in Himg.
    apply generalRules_nil in HG; tauto.
  - intros H. rewrite validateTags_rules.
    assert (Himg : imageRules URL_new tags url = Ok []) by (apply imageRules_nil; tauto).
    rewrite Himg. simpl.
    assert (HT : titleRules tags = []) by (apply titleRules_nil; tauto).
    assert (HD : descriptionRules tags = []) by (apply descriptionRules_nil; tauto).
    assert (HG : generalRules tags url = []) by (apply generalRules_nil; tauto).
    by rewrite HT, HD, HG.
Qed.

Lemma sublist_tag_rule (c : bool) (i : OgIssue) :
  tag <$> rule c i `sublist_of` [tag i].
Proof. destruct c; simpl; [reflexivity | apply sublist_nil_l]. Qed.

Lemma length_rule (c : bool) (i : OgIssue) : length (rule c i) <= 1.
Proof. destruct c; simpl; lia. Qed.

(** X3.  The issues come in the order of the rule list, at most one per
    rule, and never more than twelve of them. *)
Theorem validator_order (URL_new : URL_ctor) (tags : OgTags) (url : string) :
  match validateTags URL_new tags url with
  | Ok issues => tag <$> issues `sublist_of` ruleOrder /\ length issues <= 12
  | Throw _ => unresolvableImage URL_new tags url
  end.
Proof.
  pose proof (validateTags_cases URL_new tags url) as H.
  destruct (validateTags URL_new tags url) as [issues|e]; [|apply H].
  destruct H as (img & Himg & ->).
  assert (HT : tag <$> titleRules tags `sublist_of` ["og:title"]
               /\ length (titleRules tags) <= 1).
  { unfold titleRules. destruct (negb _); [by split|].
    split; [apply sublist_tag_rule | apply length_rule]. }
  assert (HD : tag <$> descriptionRules tags `sublist_of` ["og:description"]
               /\ length (descriptionRules tags) <= 1).
  { unfold descriptionRules. destruct (negb _); [by split|].
    split; [apply sublist_tag_rule | apply length_rule]. }
  assert (Hdim : tag <$> dimensionRules tags `sublist_of` ["og:image:width/height"; "og:image"]
                 /\ length (dimensionRules tags) <= 1).
  { unfold dimensionRules. cbv zeta. destruct (_ || _).
    - split; [|simpl; lia]. simpl. apply sublist_skip, sublist_nil_l.
    - split; [|apply length_rule]. apply sublist_cons, sublist_tag_rule. }
  assert (HI : tag <$> img `sublist_of`
                 ["og:image"; "og:image:width/height"; "og:image"; "og:image:alt"]
               /\ length img <= 3
               /\ (JS.truthy (tags !! "og:image") = false -> length img <= 1)).
  { apply imageRules_Ok in Himg as [[Hf ->]|(Ht & abs & Habs & ->)].
    - split; [simpl; apply sublist_skip, sublist_nil_l|]. simpl. split; [lia | intros _; lia].
    - assert (Ha : tag <$> abs `sublist_of` ["og:image"] /\ length abs <= 1).
      { apply absoluteRule_Ok in Habs as [->|(u & _ & ->)]; split; simpl;
          try lia; [apply sublist_nil_l | reflexivity]. }
      rewrite !fmap_app, !length_app.
      pose proof (length_rule (negb (JS.truthy (tags !! "og:image:alt"))) Issue.missingAlt).
      split; [|split; [lia | congruence]].
      change ["og:image"; "og:image:width/height"; "og:image"; "og:image:alt"]
        with (["og:image"] ++ ["og:image:width/height"; "og:image"] ++ ["og:image:alt"]).
      apply sublist_app; [apply Ha|]. apply sublist_app; [apply Hdim|].
      apply sublist_tag_rule. }
  assert (HG : tag <$> generalRules tags url `sublist_of`
                 ["og:url"; "og:type"; "twitter:card"; "twitter:title";
                  "twitter:image"; "title"; "description"; "canonical"]
               /\ length (generalRules tags url) <= 8
               /\ (JS.truthy (tags !! "og:image") = true ->
                   length (generalRules tags url) <= 7)).
  { unfold generalRules. rewrite !fmap_app, !length_app. split; [|split].
    - change ["og:url"; "og:type"; "twitter:card"; "twitter:title";
              "twitter:image"; "title"; "description"; "canonical"]
        with (["og:url"] ++ ["og:type"] ++ ["twitter:card"] ++ ["twitter:title"]
              ++ ["twitter:image"] ++ ["title"] ++ ["description"] ++ ["canonical"]).
      repeat (apply sublist_app; [apply sublist_tag_rule|]). apply sublist_tag_rule.
    - repeat match goal with |- context [length (rule ?c ?i)] =>
        let H := fresh in pose proof (length_rule c i) as H;
        generalize dependent (length (rule c i)); intros end.
      lia.
    - intros ->. rewrite andb_false_r. simpl.
      repeat match goal with |- context [length (rule ?c ?i)] =>
        let H := fresh in pose proof (length_rule c i) as H;
        generalize dependent (length (rule c i)); intros end.
      lia. }
  split.
  - rewrite !fmap_app.
    change ruleOrder
      with (["og:title"] ++ ["og:description"]
            ++ ["og:image"; "og:image:width/height"; "og:image"; "og:image:alt"]
            ++ ["og:url"; "og:type"; "twitter:card"; "twitter:title";
                "twitter:image"; "title"; "description"; "canonical"]).
    apply sublist_app; [apply HT|]. apply sublist_app; [apply HD|].
    apply sublist_app; [apply HI | apply HG].
  - rewrite !length_app. destruct (JS.truthy (tags !! "og:image")) eqn:E.
    + destruct HT as [_ ?], HD as [_ ?], HI as (_ & ? & _), HG as (_ & _ & HG).
      specialize (HG eq_refl). lia.
    + destruct HT as [_ ?], HD as [_ ?], HI as (_ & _ & HI), HG as (_ & ? & _).
      specialize (HI eq_refl). lia.
Qed.

(** X4.  The validator throws exactly for an [og:image] that does not
    start with [http] and that [new URL] refuses against the page URL,
    and what it throws is that [TypeError]. *)
Theorem validator_throws (URL_new : URL_ctor) (tags : OgTags) (url : string) :
  (validateTags URL_new tags url = Throw InvalidURL
   <-> unresolvableImage URL_new tags url)
  /\ (forall e, validateTags URL_new tags url = Throw e -> e = InvalidURL).
Proof.
  split; [split|].
  - intros H. by apply validateTags_throws in H as [_ H].
  - intros (Ht & Hs & Hu). rewrite validateTags_rules.
    unfold imageRules, absoluteRule. rewrite Ht, Hs. simpl. by rewrite Hu.
  - intros e H. by apply validateTags_throws in H as [H _].
Qed.

Lemma truthy_get (tags : OgTags) (k : string) :
  JS.truthy (tags !! k) = negb (String.eqb (get tags k) "").
Proof. unfold get. by destruct (tags !! k) as [[|c s]|]. Qed.

Lemma orElse_get (tags : OgTags) (k d : string) :
  JS.orElse (tags !! k) d = if String.eqb (get tags k) "" then d else get tags k.
Proof. unfold get. by destruct (tags !! k) as [[|c s]|]. Qed.

(** The validator reads a map only through [get]: through the value of
    a key, with the empty text for a key that is absent. *)
Lemma validateTags_get URL_new (tags1 tags2 : OgTags) url :
  (forall k, get tags1 k = get tags2 k) ->
  validateTags URL_new tags1 url = validateTags URL_new tags2 url.
Proof.
  intros H. rewrite !validateTags_rules.
  unfold imageRules, absoluteRule, dimensionRules, titleRules, descriptionRules,
    generalRules, Issue.missingTitle, Issue.longTitle, Issue.missingDescription,
    Issue.longDescription.
  rewrite !truthy_get, !orElse_get, !H. reflexivity.
Qed.

(** X5.  A key whose value is the empty text counts as a key that is
    absent: the validator gives the same result for both maps. *)
Theorem validator_empty_is_absent
    (URL_new : URL_ctor) (tags : OgTags) (k url : string) :
  validateTags URL_new (<[k := ""]> tags) url
  = validateTags URL_new (delete k tags) url.
Proof.
  apply validateTags_get. intros k'. unfold get.
  destruct (decide (k = k')) as [->|Hne].
  - by rewrite lookup_insert_eq, lookup_delete_eq.
  - by rewrite lookup_insert_ne, lookup_delete_ne.
Qed.

Example twelve_issues :
  (issues ← validateTags Sample.URL_new {["og:image" := "/a.png"]} example_page;
   Ok (length issues)) = Ok 12.
Proof. compute_done. Qed.

(** ** More on entity decoding *)

Lemma prefix_length (p s : string) :
  String.prefix p s = true -> String.length p <= String.length s.
Proof.
  revert s. induction p as [|a p IH]; intros s; [simpl; lia|].
  destruct s as [|b s]; [discriminate|]. cbn [String.prefix].
  destruct (ascii_dec a b); [|discriminate].
  intros H%IH. simpl. lia.
Qed.

Lemma length_append (s t : string) :
  String.length (s +:+ t) = String.length s + String.length t.
Proof. induction s as [|c s IH]; simpl; [reflexivity | by rewrite IH]. Qed.

Lemma replaceAll_go_length (pat rep : string) :
  pat <> "" ->
  String.length rep <= String.length pat ->
  forall s skip,
    String.length (JS.replaceAll_go pat rep skip s) <= String.length s - skip.
Proof.
  intros Hne Hle. induction s as [|c s IH]; intros skip; [simpl; lia|].
  cbn [JS.replaceAll_go]. destruct skip as [|k].
  - destruct (String.prefix pat (String c s)) eqn:E.
    + apply prefix_length in E. rewrite length_append.
      specialize (IH (String.length pat - 1)). simpl in *.
      destruct pat; [done|]. simpl in *. lia.
    + specialize (IH 0). simpl. lia.
  - specialize (IH k). simpl. lia.
Qed.

Lemma replaceAll_length (pat rep s : string) :
  pat <> "" ->
  String.length rep <= String.length pat ->
  String.length (JS.replaceAll pat rep s) <= String.length s.
Proof.
  intros Hne Hle. unfold JS.replaceAll.
  pose proof (replaceAll_go_length pat rep Hne Hle s 0). lia.
Qed.

(** X6.  Decoding never makes a text longer. *)
Theorem decode_length (text : string) :
  String.length (decodeHtmlEntities text) <= String.length text.
Proof.
  unfold decodeHtmlEntities. cbv zeta.
  repeat (etransitivity; [apply replaceAll_length; [discriminate | simpl; lia]|]).
  reflexivity.
Qed.

Lemma replaceAll_go_no_first (c : ascii) (pat rep s : string) :
  JS.indexOf c s = None ->
  JS.replaceAll_go (String c pat) rep 0 s = s.
Proof.
  induction s as [|d s IH]; [reflexivity|].
  cbn [JS.indexOf JS.replaceAll_go String.prefix].
  destruct (Ascii.eqb_spec d c) as [->|Hne]; [discriminate|].
  destruct (ascii_dec c d) as [->|_]; [done|].
  intros H. f_equal. apply IH. by destruct (JS.indexOf c s).
Qed.

(** X7.  A text without an ampersand is decoded to itself. *)
Theorem decode_without_ampersand (text : string) :
  JS.indexOf "&" text = None -> decodeHtmlEntities text = text.
Proof.
  intros H. unfold decodeHtmlEntities, JS.replaceAll. cbv zeta.
  by rewrite !(replaceAll_go_no_first "&"%char _ _ text H).
Qed.

(** ** More on the command line *)


Lemma take_app_length (k s : string) : JS.take (String.length k) (k +:+ s) = k.
Proof. induction k as [|c k IH]; simpl; [by destruct s | by rewrite IH]. Qed.

Lemma slice_from_app_length (k s : string) :
  JS.slice_from (String.length k) (k +:+ s) = s.
Proof. induction k as [|c k IH]; simpl; [by destruct s | done]. Qed.




(** Until a token starts with two dashes, the loop only collects
    positional arguments. *)
Lemma parseArgs_loop_positional (argv : list string) :
  Forall (fun a => JS.startsWith a "--" = false) argv ->
  forall args positional,
    parseArgs_loop argv args positional = (args, positional ++ argv).
Proof.
  induction 1 as [|a argv Ha _ IH]; intros args positional; cbn [parseArgs_loop].
  - by rewrite app_nil_r.
  - rewrite Ha, IH. unfold push. by rewrite <- app_assoc.
Qed.

Section CommandLine.

Variable URL_new : URL_ctor.
Variable net : Network.

(** X9.  Of several URLs on the command line only the first is used:
    the others change neither the options nor what [main] does. *)
Theorem only_first_url (u : string) (others : list string) :
  JS.startsWith u "--" = false ->
  Forall (fun a => JS.startsWith a "--" = false) others ->
  parseArgs (u :: others) = parseArgs [u]
  /\ main URL_new net (u :: others) = main URL_new net [u].
Proof.
  intros Hu Hothers.
  assert (H : parseArgs (u :: others) = parseArgs [u]).
  { unfold parseArgs.
    rewrite !parseArgs_loop_positional by (repeat constructor; assumption).
    reflexivity. }
  split; [exact H|]. unfold main. by rewrite H.
Qed.

Lemma obj_set_lookup_ne {V : Type} (k k' : string) (v : V) (o : gmap string V) :
  k <> k' -> JS.obj_set k v o !! k' = o !! k'.
Proof.
  intros Hne. unfold JS.obj_set. destruct (String.eqb k "__proto__"); [done|].
  by rewrite lookup_insert_ne.
Qed.

(** X10.  A command line that ends in [--help] shows the help and exits
    with 0, whatever comes before it. *)
Theorem help_last (pre : list string) :
  main URL_new net (pre ++ ["--help"]) = {| outputs := [Help]; exitCode := 0 |}.
Proof.
  assert (H : parseArgs (pre ++ ["--help"]) !! "help" = Some (VBool true)).
  { unfold parseArgs. rewrite parseArgs_loop_app by reflexivity.
    destruct (parseArgs_loop pre ∅ []) as [args positional]. cbn [fst snd].
    change (parseArgs_loop ["--help"] args positional)
      with (JS.obj_set "help" (VBool true) args, positional).
    destruct positional as [|url ?];
      rewrite ?obj_set_lookup_ne by discriminate; apply lookup_insert_eq. }
  unfold main. by rewrite H.
Qed.

End CommandLine.

(** ** More on the fetcher and on the whole check *)

Section FetchOutcomes.

Variable URL_new : URL_ctor.
Variable net : Network.
Variable timeout : JS.number.

Lemma doFetch_answer fetchUrl redirects response :
  redirects <= 5 ->
  answer URL_new net timeout redirects fetchUrl = Some response ->
  doFetch URL_new net timeout fetchUrl redirects
  = match response with
    | RequestError err => Rejected err
    | RequestTimeout => Rejected (Error "Request timed out")
    | Incoming status hs body =>
        let resolved :=
          Resolved {| statusCode := status; headers := responseHeaders hs;
                      body := body; finalUrl := fetchUrl |} in
        if isRedirect status then
          match header "location" hs with
          | Some (Single EmptyString) => resolved
          | Some (Single location) =>
              if JS.startsWith location "http" then
                doFetch URL_new net timeout location (redirects + 1)
              else
                match URL_new location (Some fetchUrl) with
                | Some u => doFetch URL_new net timeout (href u) (redirects + 1)
                | None => Uncaught InvalidURL
                end
          | Some (Multi _) =>
              Uncaught (TypeError "res.headers.location.startsWith is not a function")
          | None => resolved
          end
        else resolved
    | Unfinished status hs =>
        if isRedirect status then
          match header "location" hs with
          | Some (Single EmptyString) => Pending
          | Some (Single location) =>
              if JS.startsWith location "http" then
                doFetch URL_new net timeout location (redirects + 1)
              else
                match URL_new location (Some fetchUrl) with
                | Some u => doFetch URL_new net timeout (href u) (redirects + 1)
                | None => Uncaught InvalidURL
                end
          | Some (Multi _) =>
              Uncaught (TypeError "res.headers.location.startsWith is not a function")
          | None => Pending
          end
        else Pending
    end.
Proof.
  intros Hle Hans. rewrite doFetch_equation_1. unfold doFetch_unfold_clause_1.
  destruct (decide (5 < redirects)); [lia|].
  unfold answer in Hans. destruct (URL_new fetchUrl None); [|discriminate].
  injection Hans as ->. reflexivity.
Qed.

(** X11.  A request that fails or times out, at the first hop or after
    redirects, rejects the fetch: with the error of the request, or with
    [Request timed out]. *)
Theorem fetch_request_failure (targetUrl last : string) (k : nat) :
  k <= 5 ->
  redirectChain URL_new net timeout 0 targetUrl k last ->
  (forall err,
     answer URL_new net timeout k last = Some (RequestError err) ->
     fetchUrl URL_new net timeout targetUrl = Rejected err)
  /\ (answer URL_new net timeout k last = Some RequestTimeout ->
      fetchUrl URL_new net timeout targetUrl = Rejected (Error "Request timed out")).
Proof.
  intros Hk Hchain. unfold fetchUrl.
  rewrite (doFetch_chain _ _ _ _ _ _ _ Hchain) by lia. simpl.
  split; [intros err H | intros H]; by rewrite (doFetch_answer _ _ _ Hk H).
Qed.


(** X13.  A redirect whose [location] does not start with [http] and
    that [new URL] refuses against the current URL is an exception in
    the response callback, which nothing catches: the promise is
    neither resolved nor rejected. *)
Theorem fetch_unresolvable_redirect (targetUrl last location : string) (k status : nat)
    (hs : list (string * HeaderValue)) (body : string) :
  k <= 5 ->
  redirectChain URL_new net timeout 0 targetUrl k last ->
  answer URL_new net timeout k last = Some (Incoming status hs body) ->
  isRedirect status = true ->
  header "location" hs = Some (Single location) ->
  location <> "" ->
  JS.startsWith location "http" = false ->
  URL_new location (Some last) = None ->
  fetchUrl URL_new net timeout targetUrl = Uncaught InvalidURL.
Proof.
  intros Hk Hchain Hans Hred Hloc Hne Hrel Hbad. unfold fetchUrl.
  rewrite (doFetch_chain _ _ _ _ _ _ _ Hchain) by lia. simpl.
  rewrite (doFetch_answer _ _ _ Hk Hans). cbv zeta.
  rewrite Hred, Hloc. destruct location; [done|]. by rewrite Hrel, Hbad.
Qed.

(** X14.  [checkUrl] rejects in two cases only: the fetch has rejected,
    with the same error; or the page was fetched and parsed, and its
    [og:image] does not start with [http] and is refused by [new URL]
    against the final URL.  Parsing the page never rejects it. *)
Theorem checkUrl_rejects (targetUrl : string) (err : exn) :
  checkUrl URL_new net targetUrl timeout = Rejected err ->
  fetchUrl URL_new net timeout targetUrl = Rejected err
  \/ exists response tags,
       fetchUrl URL_new net timeout targetUrl = Resolved response
       /\ parseHtml (body response) = Ok tags
       /\ err = InvalidURL
       /\ unresolvableImage URL_new tags (finalUrl response).
Proof.
  unfold checkUrl.
  destruct (fetchUrl URL_new net timeout targetUrl) as [response|e|e|];
    [|intros [= <-]; by left|discriminate|discriminate].
  destruct (parseHtml_written (body response)) as (tags & Hparse & _). rewrite Hparse.
  destruct (validateTags URL_new tags (finalUrl response)) as [issues|e] eqn:E;
    [discriminate|].
  intros [= <-]. right. exists response, tags.
  apply validateTags_throws in E as [-> ?]. auto.
Qed.


End FetchOutcomes.

(** ** More on [main] *)

Lemma count_cons (sev : Severity) (i : OgIssue) (issues : list OgIssue) :
  count sev (i :: issues)
  = (if decide (severity i = sev) then 1 else 0) + count sev issues.
Proof. unfold count. rewrite filter_cons. by destruct (decide (severity i = sev)). Qed.

(** X15.  The three counts of the summary add up to the number of
    issues. *)
Theorem summary_adds_up (issues : list OgIssue) :
  errors (summarize issues) + warnings (summarize issues) + infos (summarize issues)
  = length issues.
Proof.
  unfold summarize. simpl. induction issues as [|i issues IH]; [reflexivity|].
  rewrite !count_cons. simpl. destruct (severity i); simpl; lia.
Qed.

Section Outcomes.

Variable URL_new : URL_ctor.
Variable net : Network.

(** X16.  [main] exits with 0 or 1.  It exits with 0 only after the
    help, in a run that reached a validation result, and with [--ci]
    only when that result holds no error, or in a run whose check is
    never settled.  Such a run ends with 0, [--ci] or not, and has
    written the header at most. *)
Theorem exit_codes (argv : list string) :
  exitCode (main URL_new net argv) <= 1
  /\ (exitCode (main URL_new net argv) = 0 ->
      outputs (main URL_new net argv) = [Help]
      \/ (exists result,
            validationRun URL_new net argv result
            /\ (truthyArg (parseArgs argv !! "ci") = true ->
                Forall (fun i => severity i <> error) (issues result)))
      \/ pendingRun URL_new net argv)
  /\ (pendingRun URL_new net argv ->
      exitCode (main URL_new net argv) = 0
      /\ (outputs (main URL_new net argv) = []
          \/ exists fullUrl, outputs (main URL_new net argv) = [Header fullUrl])).
Proof.
  unfold main, validationRun, pendingRun. cbv zeta.
  destruct (truthyArg (parseArgs argv !! "help")) eqn:Hhelp.
  { simpl. split; [lia|]. split; [auto | by intros [? _]]. }
  destruct (parseArgs argv !! "_url") as [[t|b]|] eqn:Hurl; cbn [truthyArg negb].
  2: { destruct b; simpl; (split; [lia|]);
         (split; [discriminate | by intros (_ & ? & ? & ? & _)]). }
  2: { simpl. split; [lia|]. split; [discriminate | by intros (_ & ? & ? & ? & _)]. }
  destruct (String.eqb_spec t "") as [->|Ht]; cbn [negb].
  { simpl. split; [lia|]. split; [discriminate|].
    intros (_ & t & ? & [= <-] & ? & _). done. }
  destruct (URL_new _ None) as [parsedUrl|] eqn:Hparsed.
  2: { simpl. split; [lia|]. split; [discriminate|].
       intros (_ & t' & ? & [= <-] & _ & H & _). congruence. }
  destruct (checkUrl URL_new net _ _) as [result|err|err|] eqn:Hcheck.
  2, 3: simpl; (split; [lia|]); split; [discriminate|];
    intros (_ & t' & p' & [= <-] & _ & H & H'); congruence.
  - split; [|split].
    + destruct (report URL_new _ result) as [out [err|]]; simpl; [lia|].
      destruct (_ && _); lia.
    + destruct (report URL_new _ result) as [out [err|]]; simpl; [discriminate|].
      intros Hexit. right. left. exists result. split.
      * split; [reflexivity|]. exists t, parsedUrl. auto.
      * intros Hci. rewrite Hci in Hexit. simpl in Hexit.
        destruct (someError (issues result)) eqn:E; [discriminate|].
        apply Forall_Exists_neg. rewrite <- someError_Exists. congruence.
    + intros (_ & t' & p' & [= <-] & _ & H & H'). congruence.
  - simpl. split; [lia|]. split.
    + intros _. right. right. split; [reflexivity|]. exists t, parsedUrl. auto.
    + intros _. split; [reflexivity|].
      destruct (truthyArg (parseArgs argv !! "json")); simpl; eauto.
Qed.

(** X17.  With [--json], [main] writes one thing and no more: the
    help, a usage message, the JSON report, the JSON error, or the
    trace of an exception that nothing catches; never the header or a
    part of the terminal report.  It writes nothing at all in one case
    only, a check that is never settled. *)
Theorem json_single_output (argv : list string) :
  truthyArg (parseArgs argv !! "json") = true ->
  (exists o,
     outputs (main URL_new net argv) = [o]
     /\ match o with
        | Help | UrlRequired | InvalidUrl _ | Json _ | JsonError _
        | UncaughtException _ => True
        | _ => False
        end)
  \/ (pendingRun URL_new net argv /\ outputs (main URL_new net argv) = []).
Proof.
  intros Hjson. unfold main, pendingRun. cbv zeta. rewrite Hjson. cbn [negb].
  destruct (truthyArg (parseArgs argv !! "help")); [left; by eexists|].
  destruct (parseArgs argv !! "_url") as [[t|b]|] eqn:Hurl; cbn [truthyArg negb].
  2: { left. destruct b; by eexists. }
  2: { left. by eexists. }
  destruct (String.eqb_spec t "") as [->|Ht]; cbn [negb]; [left; by eexists|].
  destruct (URL_new _ None) as [parsedUrl|] eqn:Hparsed; [|left; by eexists].
  destruct (checkUrl URL_new net _ _) as [result|err|err|] eqn:Hcheck.
  - left. unfold report. by eexists.
  - left. by eexists.
  - left. by eexists.
  - right. split; [|reflexivity]. split; [reflexivity|]. exists t, parsedUrl. auto.
Qed.

End Outcomes.

(** ** The previews *)

Lemma take_length (n : nat) (s : string) :
  String.length (JS.take n s) = Nat.min n (String.length s).
Proof.
  revert s. induction n as [|n IH]; intros [|c s]; simpl; try reflexivity.
  by rewrite IH.
Qed.

(** X18.  For a limit of 3 or more, [truncate] returns at most [max]
    characters: the text itself when it is that short, and otherwise
    its first [max - 3] characters followed by three dots, [max]
    characters in all. *)
Theorem truncate_fits (str : string) (max : Z) :
  (3 <= max)%Z ->
  (Z.of_nat (String.length (truncate str max)) <= max)%Z
  /\ ((Z.of_nat (String.length str) <= max)%Z -> truncate str max = str)
  /\ ((max < Z.of_nat (String.length str))%Z ->
      truncate str max = JS.take (Z.to_nat (max - 3)) str +:+ "..."
      /\ Z.of_nat (String.length (truncate str max)) = max).
Proof.
  intros Hmax. unfold truncate, sliceTo.
  destruct (String.eqb_spec str "") as [->|Hne].
  { simpl. split; [lia|]. split; [done | lia]. }
  destruct (Z.ltb_spec max (Z.of_nat (String.length str))) as [Hlt|Hge].
  - destruct (Z.ltb_spec (max - 3) 0) as [?|_]; [lia|].
    rewrite length_append, take_length. simpl.
    split; [lia|]. split; [lia|]. intros _. split; [reflexivity | lia].
  - split; [lia|]. split; [done | lia].
Qed.

Section PreviewProperties.

Variable URL_new : URL_ctor.

Lemma orElse_nonempty (o : option string) (d : string) :
  d <> "" -> JS.orElse o d <> "".
Proof. by destruct o as [[|c s]|]. Qed.

(** X19.  The title of the previews is the first of [og:title],
    [twitter:title] and [title] that is not empty, or [No title]; the
    description the first of [og:description], [twitter:description]
    and [description] that is not empty, or [No description]; so
    neither is ever empty.  The image is the first of [og:image] and
    [twitter:image] that is not empty, or none, and the site name is
    [og:site_name] or else the host of the page URL. *)
Theorem previews_fallbacks (tags : OgTags) (url : string)
    (title desc siteName : string) (image : option string) :
  renderPreviews URL_new tags url = Ok (Previews title desc image siteName) ->
  title <> "" /\ desc <> "" /\ image <> Some ""
  /\ title =
     (if JS.truthy (tags !! "og:title") then get tags "og:title"
      else if JS.truthy (tags !! "twitter:title") then get tags "twitter:title"
      else if JS.truthy (tags !! "title") then get tags "title"
      else "No title")
  /\ desc =
     (if JS.truthy (tags !! "og:description") then get tags "og:description"
      else if JS.truthy (tags !! "twitter:description")
           then get tags "twitter:description"
      else if JS.truthy (tags !! "description") then get tags "description"
      else "No description")
  /\ image =
     (if JS.truthy (tags !! "og:image") then Some (get tags "og:image")
      else if JS.truthy (tags !! "twitter:image") then Some (get tags "twitter:image")
      else None)
  /\ (JS.truthy (tags !! "og:site_name") = true -> siteName = get tags "og:site_name")
  /\ (JS.truthy (tags !! "og:site_name") = false ->
      exists u, URL_new url None = Some u /\ siteName = hostname u).
Proof.
  unfold renderPreviews. cbv zeta.
  destruct (JS.truthy (tags !! "og:site_name")) eqn:Hsite; simpl.
  2: destruct (URL_new url None) as [u|] eqn:Hu; simpl; [|discriminate].
  all: intros [= <- <- <- <-].
  all: split; [repeat apply orElse_nonempty; discriminate|].
  all: split; [repeat apply orElse_nonempty; discriminate|].
  all: split; [unfold firstTruthy;
               destruct (tags !! "og:image") as [[|??]|];
               destruct (tags !! "twitter:image") as [[|??]|]; simpl; congruence|].
  all: split; [unfold get;
               destruct (tags !! "og:title") as [[|??]|];
               destruct (tags !! "twitter:title") as [[|??]|];
               destruct (tags !! "title") as [[|??]|]; reflexivity|].
  all: split; [unfold get;
               destruct (tags !! "og:description") as [[|??]|];
               destruct (tags !! "twitter:description") as [[|??]|];
               destruct (tags !! "description") as [[|??]|]; reflexivity|].
  all: split; [unfold firstTruthy, get;
               destruct (tags !! "og:image") as [[|??]|];
               destruct (tags !! "twitter:image") as [[|??]|]; reflexivity|].
  all: split; [try discriminate; auto | try discriminate; eauto].
Qed.

End PreviewProperties.

(** ** More on the extractor *)

Lemma parseHtml_steps (html : string) :
  parseHtml html
  = (tags ← titleStep html ∅;
     tags ← metaStep html tags;
     tags ← descriptionStep html tags;
     Ok (linkSteps html tags)).
Proof. reflexivity. Qed.

Lemma obj_set_union {V : Type} (k : string) (v : V) (o : gmap string V) :
  JS.obj_set k v o = JS.obj_set k v ∅ ∪ o.
Proof.
  unfold JS.obj_set. destruct (String.eqb k "__proto__").
  - by rewrite (left_id_L ∅ (∪)).
  - by rewrite insert_union_singleton_l.
Qed.

(** What the loop body does to an object is a union: the entry it
    writes, if any, over the object. *)
Lemma metaBody_union (m : Regex.state) :
  is_Some (group m 1) ->
  exists written : OgTags,
    forall tags, metaBody tags m = Ok (written ∪ tags).
Proof.
  intros Hm. destruct (metaBody_cases m Hm) as [Hsame|(key & value & Hset)].
  - exists ∅. intros tags. by rewrite Hsame, (left_id_L ∅ (∪)).
  - exists (JS.obj_set key value ∅). intros tags. by rewrite Hset, obj_set_union.
Qed.

Lemma forEach_app {A S : Type} (body : S -> A -> result S) (xs ys : list A) (s : S) :
  forEach body (xs ++ ys) s = (s' ← forEach body xs s; forEach body ys s').
Proof.
  revert s. induction xs as [|x xs IH]; intros s; simpl; [reflexivity|].
  destruct (body s x); simpl; [apply IH | reflexivity].
Qed.

Lemma forEach_metaBody_Ok (ms : list Regex.state) (tags : OgTags) :
  Forall (fun m => is_Some (group m 1)) ms ->
  exists tags', forEach metaBody ms tags = Ok tags'.
Proof.
  intros H. destruct (forEach_metaBody ms H tags) as (tags' & ? & _). eauto.
Qed.

Lemma forEach_metaBody_skips (ms : list Regex.state) (k : string) :
  Forall (fun m => is_Some (group m 1)) ms ->
  Forall (fun m => metaSkips m k) ms ->
  forall tags tags', forEach metaBody ms tags = Ok tags' -> tags' !! k = tags !! k.
Proof.
  induction 1 as [|m ms Hm _ IH]; intros Hskip tags tags'; simpl.
  - by intros [= <-].
  - apply Forall_cons in Hskip as [Hs Hskip].
    destruct (metaBody_union m Hm) as (w & Hw). rewrite Hw. simpl.
    intros H%(IH Hskip). rewrite H, lookup_union.
    rewrite (Hs w); [by rewrite (left_id_L None _)|].
    by rewrite Hw, (right_id_L ∅ (∪)).
Qed.

Lemma linkSteps_lookup (html k : string) (tags : OgTags) :
  k <> "canonical" -> k <> "favicon" ->
  linkSteps html tags !! k = tags !! k.
Proof.
  intros Hc Hf. unfold linkSteps, store. cbv zeta.
  repeat case_match; rewrite ?obj_set_lookup_ne by done; reflexivity.
Qed.

Lemma descriptionStep_lookup (html k : string) (tags tags' : OgTags) :
  k <> "description" ->
  descriptionStep html tags = Ok tags' -> tags' !! k = tags !! k.
Proof.
  intros Hd. unfold descriptionStep.
  destruct (orMatch _ _) as [m|]; [|by intros [= <-]].
  destruct (defined (group m 1)); simpl; [|discriminate].
  intros [= <-]. by rewrite obj_set_lookup_ne.
Qed.

(** X20.  Last match wins: when a [<meta>] element writes [v] under [k]
    and no later element writes under [k], the extractor returns [v] for
    [k], whatever the [<title>] and the earlier elements gave; this for
    every key but [description], [canonical] and [favicon], which the
    patterns of their own may overwrite. *)
Theorem last_element_wins (html k v : string) (before after : list Regex.state)
    (m : Regex.state) (tags : OgTags) :
  Regex.execAll true Patterns.metaRegex 0 html = before ++ m :: after ->
  metaWrites m k v ->
  Forall (fun m' => metaSkips m' k) after ->
  k <> "description" -> k <> "canonical" -> k <> "favicon" ->
  parseHtml html = Ok tags ->
  tags !! k = Some v.
Proof.
  intros Hms (w & Hw & Hk) Hafter Hd Hc Hf. rewrite parseHtml_steps.
  destruct (titleStep html ∅) as [tags1|]; simpl; [|discriminate].
  unfold metaStep. rewrite Hms, forEach_app.
  pose proof (execAll_sets true 1 Patterns.metaRegex eq_refl html 0) as Hsets.
  rewrite Hms in Hsets. apply Forall_app in Hsets as [Hb Hsets].
  apply Forall_cons in Hsets as [Hm Ha].
  destruct (forEach_metaBody_Ok before tags1 Hb) as (tagsB & ->). simpl.
  destruct (metaBody_union m Hm) as (w' & Hw'). rewrite Hw'. simpl.
  assert (w' = w) as ->.
  { rewrite Hw', (right_id_L ∅ (∪)) in Hw. congruence. }
  destruct (forEach metaBody after (w ∪ tagsB)) as [tags2|] eqn:E2; simpl; [|discriminate].
  destruct (descriptionStep html tags2) as [tags3|] eqn:E3; simpl; [|discriminate].
  intros [= <-].
  rewrite linkSteps_lookup by done.
  rewrite (descriptionStep_lookup _ _ _ _ Hd E3).
  rewrite (forEach_metaBody_skips after k Ha Hafter _ _ E2).
  by rewrite lookup_union, Hk, union_Some_l.
Qed.

(** X21.  The patterns for the description, the canonical link and the
    icon have the last word on their keys, whatever the [<meta>]
    elements wrote there: the description is the decoded capture of the
    leftmost match, the two links are stored as they are written,
    without decoding. *)
Theorem dedicated_patterns_override (html : string) (tags : OgTags) :
  parseHtml html = Ok tags ->
  (forall m,
     orMatch (match_ html Patterns.descRe1) (match_ html Patterns.descRe2) = Some m ->
     exists d, group m 1 = Some d
       /\ tags !! "description" = Some (decodeHtmlEntities d))
  /\ (forall m,
        orMatch (match_ html Patterns.canonicalRe1) (match_ html Patterns.canonicalRe2)
        = Some m ->
        exists href, group m 1 = Some href /\ tags !! "canonical" = Some href)
  /\ (forall m,
        match_ html Patterns.faviconRe = Some m ->
        exists href, group m 1 = Some href /\ tags !! "favicon" = Some href).
Proof.
  rewrite parseHtml_steps.
  destruct (titleStep html ∅) as [tags1|]; simpl; [|discriminate].
  destruct (metaStep html tags1) as [tags2|]; simpl; [|discriminate].
  destruct (descriptionStep html tags2) as [tags3|] eqn:E3; simpl; [|discriminate].
  intros [= <-]. split; [|split].
  - intros m Hm. rewrite linkSteps_lookup by discriminate.
    unfold descriptionStep in E3. rewrite Hm in E3.
    destruct (orMatch_sets _ _ _ _ Hm eq_refl eq_refl) as [d Hd].
    rewrite Hd in E3. simpl in E3. injection E3 as <-.
    exists d. split; [done|]. apply lookup_insert_eq.
  - intros m Hm. unfold linkSteps. cbv zeta. rewrite Hm.
    destruct (orMatch_sets _ _ _ _ Hm eq_refl eq_refl) as [h Hh].
    exists h. split; [done|]. unfold store. rewrite Hh.
    destruct (match_ html Patterns.faviconRe) as [f|].
    + destruct (group f 1); rewrite ?obj_set_lookup_ne by discriminate;
        apply lookup_insert_eq.
    + apply lookup_insert_eq.
  - intros m Hm. unfold linkSteps. cbv zeta. rewrite Hm.
    destruct (match_sets _ _ _ Hm eq_refl) as [h Hh].
    exists h. split; [done|]. unfold store at 1. rewrite Hh.
    apply lookup_insert_eq.
Qed.

Lemma lowerChar_idempotent (c : ascii) : JS.lowerChar (JS.lowerChar c) = JS.lowerChar c.
Proof. destruct c as [[] [] [] [] [] [] [] []]; reflexivity. Qed.

Lemma toLowerCase_idempotent (s : string) :
  JS.toLowerCase (JS.toLowerCase s) = JS.toLowerCase s.
Proof.
  induction s as [|c s IH]; simpl; [reflexivity|].
  by rewrite lowerChar_idempotent, IH.
Qed.

Lemma metaBody_key_lower (m : Regex.state) (w : OgTags) (k : string) :
  metaBody ∅ m = Ok w -> is_Some (w !! k) -> JS.toLowerCase k = k.
Proof.
  unfold metaBody.
  destruct (defined (group m 1)) as [attrs|]; simpl; [|discriminate].
  destruct (match_ attrs Patterns.propRe) as [propMatch|]; simpl.
  - destruct (defined (group propMatch 1)) as [k0|]; simpl; [|discriminate].
    destruct (match_ attrs Patterns.contentRe) as [contentMatch|].
    + destruct (negb _).
      * destruct (defined (group contentMatch 1)) as [v|]; simpl; [|discriminate].
        intros [= <-] [Hk|[-> _]]%obj_set_is_Some.
        -- rewrite lookup_empty in Hk. by destruct Hk.
        -- apply toLowerCase_idempotent.
      * intros [= <-] Hk. rewrite lookup_empty in Hk. by destruct Hk.
    + intros [= <-] Hk. rewrite lookup_empty in Hk. by destruct Hk.
  - destruct (match_ attrs Patterns.contentRe); simpl;
      intros [= <-] Hk; rewrite lookup_empty in Hk; by destruct Hk.
Qed.

(** X22.  Every key of the object the extractor returns is in lower
    case. *)
Theorem keys_are_lower_case (html k : string) (tags : OgTags) :
  parseHtml html = Ok tags -> is_Some (tags !! k) -> JS.toLowerCase k = k.
Proof.
  intros Hparse Hk. destruct (parseHtml_written html) as (tags' & Hparse' & Hw).
  rewrite Hparse in Hparse'. injection Hparse' as <-.
  destruct (Hw k Hk) as [[-> _]|[(m & w & _ & Hm & Hs)|[[-> _]|[[-> _]|[-> _]]]]];
    try reflexivity.
  by eapply metaBody_key_lower.
Qed.

(** ** The matcher on texts of a known shape *)

Lemma append_assoc (a b c : string) : (a +:+ b) +:+ c = a +:+ (b +:+ c).
Proof.
  induction a as [|x a IH]; [reflexivity|].
  change (String x ((a +:+ b) +:+ c) = String x (a +:+ (b +:+ c))). by rewrite IH.
Qed.

Lemma allChars_app (P : ascii -> bool) (a b : string) :
  allChars P (a +:+ b) = allChars P a && allChars P b.
Proof.
  induction a as [|x a IH]; [reflexivity|].
  change (P x && allChars P (a +:+ b) = P x && allChars P a && allChars P b).
  by rewrite IH, andb_assoc.
Qed.

Section Shapes.

Variable ignoreCase : bool.

Lemma step_match a c s k :
  Regex.atomMatches ignoreCase a c = true ->
  Regex.step ignoreCase a (String c s) k = k s.
Proof. intros H. simpl. by rewrite H. Qed.

Lemma step_fail a c s k :
  Regex.atomMatches ignoreCase a c = false ->
  Regex.step ignoreCase a (String c s) k = None.
Proof. intros H. simpl. by rewrite H. Qed.

Lemma star_stop greedy a c s k :
  Regex.atomMatches ignoreCase a c = false ->
  Regex.star ignoreCase greedy 0 a (String c s) k = k (String c s).
Proof. intros H. simpl. rewrite H. destruct greedy; [reflexivity|]. by destruct (k _). Qed.

Lemma star_stop_end greedy a k :
  Regex.star ignoreCase greedy 0 a "" k = k "".
Proof. simpl. destruct greedy; [reflexivity|]. by destruct (k _). Qed.

Lemma star_stops greedy a s k :
  stops ignoreCase a s -> Regex.star ignoreCase greedy 0 a s k = k s.
Proof. destruct s; [intros _; apply star_stop_end | apply star_stop]. Qed.

(** A greedy repetition takes all of [A] when the continuation accepts
    what follows. *)
Lemma star_greedy_max a k x (A rest : string) :
  allChars (Regex.atomMatches ignoreCase a) A = true ->
  stops ignoreCase a rest ->
  k rest = Some x ->
  forall min, min <= String.length A ->
    Regex.star ignoreCase true min a (A +:+ rest) k = Some x.
Proof.
  intros HA Hstop Hk. induction A as [|c A IH]; intros min Hmin.
  - simpl in Hmin. assert (min = 0) as -> by lia.
    change ("" +:+ rest) with rest. destruct rest as [|d rest].
    + by rewrite star_stop_end.
    + by rewrite star_stop.
  - apply andb_true_iff in HA as [Hc HA]. specialize (IH HA).
    change (String c A +:+ rest) with (String c (A +:+ rest)).
    destruct min as [|min]; cbn [Regex.star]; rewrite Hc.
    + by rewrite (IH 0) by lia.
    + apply IH. simpl in Hmin. lia.
Qed.

(** A lazy repetition takes all of [A] when the continuation accepts
    what follows and refuses every earlier stop. *)
Lemma star_lazy_all a k x (A rest : string) :
  allChars (Regex.atomMatches ignoreCase a) A = true ->
  k rest = Some x ->
  forall min,
    (forall A1 A2, A = A1 +:+ A2 -> A2 <> "" -> min <= String.length A1 ->
                   k (A2 +:+ rest) = None) ->
    min <= String.length A ->
    Regex.star ignoreCase false min a (A +:+ rest) k = Some x.
Proof.
  intros HA Hk. induction A as [|c A IH]; intros min Hearly Hmin.
  - simpl in Hmin. assert (min = 0) as -> by lia.
    change ("" +:+ rest) with rest. destruct rest; simpl; by rewrite Hk.
  - apply andb_true_iff in HA as [Hc HA]. specialize (IH HA).
    change (String c A +:+ rest) with (String c (A +:+ rest)).
    destruct min as [|min]; cbn [Regex.star].
    + assert (E : k (String c (A +:+ rest)) = None)
        by (apply (Hearly "" (String c A)); [done | done | simpl; lia]).
      rewrite E, Hc. apply IH; [|lia].
      intros A1 A2 -> HA2 _. apply (Hearly (String c A1) A2); [done | done | simpl; lia].
    + rewrite Hc. apply IH; [|simpl in Hmin; lia].
      intros A1 A2 -> HA2 Hlen. apply (Hearly (String c A1) A2); [done | done | simpl; lia].
Qed.

Lemma run_lit_match (w w' s : string) caps k :
  litMatches ignoreCase w w' = true ->
  Regex.run ignoreCase (Regex.lit w) (w' +:+ s) caps k = k s caps.
Proof.
  revert w'. induction w as [|c w IH]; intros [|d w'] H; try discriminate; [reflexivity|].
  apply andb_true_iff in H as [Hc H].
  change (String d w' +:+ s) with (String d (w' +:+ s)).
  cbn [Regex.lit Regex.run Regex.step Regex.atomMatches]. rewrite Hc. by apply IH.
Qed.

Lemma matchAt_first_fail a r1 r2 c s :
  Regex.atomMatches ignoreCase a c = false ->
  Regex.matchAt ignoreCase (Regex.Seq (Regex.Seq (Regex.Atom a) r1) r2) (String c s) = None.
Proof. intros H. unfold Regex.matchAt. cbn [Regex.run Regex.step]. by rewrite H. Qed.

Lemma search_cons_fail r c s :
  Regex.matchAt ignoreCase r (String c s) = None ->
  Regex.search ignoreCase r (String c s) = Regex.search ignoreCase r s.
Proof. intros H. cbn [Regex.search]. by rewrite H. Qed.

Lemma search_here r s x :
  Regex.matchAt ignoreCase r s = Some x -> Regex.search ignoreCase r s = Some x.
Proof. intros H. destruct s; cbn [Regex.search]; by rewrite H. Qed.

Lemma execAll_skip r (s : string) (skip : nat) :
  String.length s <= skip -> Regex.execAll ignoreCase r skip s = [].
Proof.
  revert skip. induction s as [|c s IH]; intros skip H; [reflexivity|].
  destruct skip as [|skip]; [simpl in H; lia|].
  cbn [Regex.execAll]. apply IH. simpl in H. lia.
Qed.

Lemma execAll_whole r (s : string) c s' caps :
  s = String c s' ->
  Regex.matchAt ignoreCase r s = Some ("", caps) ->
  Regex.execAll ignoreCase r 0 s = [("", caps)].
Proof.
  intros -> H. cbn [Regex.execAll]. rewrite H. f_equal.
  apply execAll_skip. simpl. lia.
Qed.

End Shapes.

Lemma capture_app (A rest : string) :
  JS.take (String.length (A +:+ rest) - String.length rest) (A +:+ rest) = A.
Proof.
  rewrite length_append.
  replace (String.length A + String.length rest - String.length rest)
    with (String.length A) by lia.
  apply take_app_length.
Qed.

(** ** One [<meta>] element, step by step *)

Lemma keyChar_facts (c : ascii) :
  keyChar c = true ->
  Regex.atomMatches true Regex.Space c = false
  /\ Regex.atomMatches true (Regex.Lit "=") c = false
  /\ Regex.atomMatches true (Regex.NoneOf Patterns.quotes) c = true
  /\ Regex.atomMatches true (Regex.NoneOf ">") c = true.
Proof. destruct c as [[] [] [] [] [] [] [] []]; vm_compute; intuition congruence. Qed.

Lemma valueChar_facts (c : ascii) :
  valueChar c = true ->
  Regex.atomMatches true (Regex.NoneOf Patterns.quotes) c = true
  /\ Regex.atomMatches true (Regex.NoneOf ">") c = true.
Proof. destruct c as [[] [] [] [] [] [] [] []]; vm_compute; intuition congruence. Qed.

Lemma slash_only (c : ascii) :
  Regex.atomMatches true (Regex.Lit "/") c = true -> c = "/"%char.
Proof. destruct c as [[] [] [] [] [] [] [] []]; vm_compute; congruence. Qed.

Lemma allChars_impl (P Q : ascii -> bool) (s : string) :
  (forall c, P c = true -> Q c = true) -> allChars P s = true -> allChars Q s = true.
Proof.
  intros H. induction s as [|c s IH]; [done|]. simpl.
  intros [Hc Hs]%andb_true_iff. by rewrite (H c Hc), IH.
Qed.

Lemma lastChar_app (a b : string) : b <> "" -> lastChar (a +:+ b) = lastChar b.
Proof.
  intros Hb. induction a as [|c a IH]; [reflexivity|].
  change (String c a +:+ b) with (String c (a +:+ b)). cbn [lastChar].
  destruct (a +:+ b) eqn:E; [|exact IH].
  destruct a; [by destruct b | discriminate].
Qed.

Lemma metaAttributes_last (key value : string) :
  lastChar (metaAttributes key value) = Some dquote.
Proof.
  unfold metaAttributes, attr.
  rewrite <- !append_assoc. by rewrite lastChar_app.
Qed.

Lemma metaAttributes_chars (key value : string) :
  allChars keyChar key = true ->
  allChars valueChar value = true ->
  allChars (Regex.atomMatches true (Regex.NoneOf ">")) (metaAttributes key value) = true.
Proof.
  intros Hk Hv. unfold metaAttributes, attr. rewrite !allChars_app.
  rewrite (allChars_impl keyChar _ key (fun c H => proj2 (proj2 (proj2 (keyChar_facts c H)))) Hk).
  rewrite (allChars_impl valueChar _ value (fun c H => proj2 (valueChar_facts c H)) Hv).
  reflexivity.
Qed.

(** Before the end of the attributes the closing [/?>] does not
    match. *)
Lemma close_early (A : string) caps k :
  A <> "" ->
  allChars (Regex.atomMatches true (Regex.NoneOf ">")) A = true ->
  lastChar A <> Some "/"%char ->
  Regex.run true Patterns.close (A +:+ ">") caps k = None.
Proof.
  intros HA Hchars Hlast. destruct A as [|c A]; [done|].
  apply andb_true_iff in Hchars as [Hc Hchars].
  assert (Hgt : Regex.atomMatches true (Regex.Lit ">") c = false).
  { simpl in *. rewrite orb_false_r in Hc. by apply negb_true_iff in Hc. }
  change (String c A +:+ ">") with (String c (A +:+ ">")).
  unfold Patterns.close, Regex.cat. cbn [foldr Regex.lit Regex.run].
  rewrite (step_fail true (Regex.Lit ">") c) by exact Hgt.
  destruct (Regex.atomMatches true (Regex.Lit "/") c) eqn:Hs.
  - apply slash_only in Hs as ->. rewrite step_match by reflexivity.
    destruct A as [|d A]; [done|].
    apply andb_true_iff in Hchars as [Hd _].
    change (String d A +:+ ">") with (String d (A +:+ ">")).
    rewrite step_fail; [reflexivity|].
    simpl in *. rewrite orb_false_r in Hd. by apply negb_true_iff in Hd.
  - by rewrite step_fail.
Qed.

Lemma metaElement_shape (key value : string) :
  metaElement key value = "<meta" +:+ String " " (metaAttributes key value +:+ ">").
Proof.
  unfold metaElement, metaAttributes.
  change ("<meta " +:+ ?s) with ("<meta" +:+ String " " s).
  by rewrite !append_assoc.
Qed.

(** The only [<meta>] match of the element: all of it, with the
    attribute text as its capture. *)
Lemma metaElement_match (key value : string) :
  allChars keyChar key = true ->
  allChars valueChar value = true ->
  Regex.matchAt true Patterns.metaRegex (metaElement key value)
  = Some ("", {[1 := metaAttributes key value]}).
Proof.
  intros Hk Hv. rewrite metaElement_shape.
  unfold Regex.matchAt, Patterns.metaRegex, Regex.cat. cbn [foldr Regex.run].
  rewrite run_lit_match by reflexivity.
  unfold Patterns.ws1.
  cbn [Regex.run Regex.star].
  change (Regex.atomMatches true Regex.Space " ") with true. cbv iota.
  rewrite star_stops by exact eq_refl.
  erewrite star_lazy_all; [reflexivity | by apply metaAttributes_chars | | | ].
  - rewrite capture_app. reflexivity.
  - intros A1 A2 HA HA2 _. apply close_early; [exact HA2 | |].
    + pose proof (metaAttributes_chars key value Hk Hv) as Hc.
      rewrite HA, allChars_app in Hc. by apply andb_true_iff in Hc as [_ ?].
    + pose proof (metaAttributes_last key value) as Hl.
      rewrite HA, lastChar_app in Hl by exact HA2. rewrite Hl. discriminate.
  - unfold metaAttributes, attr. rewrite !length_append. simpl. lia.
Qed.

Lemma metaElement_execAll (key value : string) :
  allChars keyChar key = true ->
  allChars valueChar value = true ->
  Regex.execAll true Patterns.metaRegex 0 (metaElement key value)
  = [("", {[1 := metaAttributes key value]})].
Proof.
  intros Hk Hv.
  apply (execAll_whole true _ _ "<"
           ("meta" +:+ String " " (metaAttributes key value +:+ String ">" ""))).
  - rewrite metaElement_shape. reflexivity.
  - by apply metaElement_match.
Qed.

Lemma metaAttributes_shape (key value : string) :
  metaAttributes key value
  = "property" +:+ String "=" (String dquote (key +:+ String dquote
      (String " " ("content" +:+ String "=" (String dquote (value +:+ String dquote "")))))).
Proof.
  unfold metaAttributes, attr, dq. fold dquote.
  rewrite !append_assoc. reflexivity.
Qed.

Lemma keyChars_quotes (key : string) :
  allChars keyChar key = true ->
  allChars (Regex.atomMatches true (Regex.NoneOf Patterns.quotes)) key = true.
Proof. apply allChars_impl. intros c H. apply (keyChar_facts c H). Qed.

Lemma valueChars_quotes (value : string) :
  allChars valueChar value = true ->
  allChars (Regex.atomMatches true (Regex.NoneOf Patterns.quotes)) value = true.
Proof. apply allChars_impl. intros c H. apply (valueChar_facts c H). Qed.

(** The [property] attribute is found at the start of the attribute
    text, with the key as its capture. *)
Lemma metaAttributes_prop (key value : string) :
  key <> "" ->
  allChars keyChar key = true ->
  exists rest,
    match_ (metaAttributes key value) Patterns.propRe = Some (rest, {[1 := key]}).
Proof.
  intros Hne Hk. eexists. unfold match_. apply search_here.
  rewrite metaAttributes_shape.
  unfold Regex.matchAt, Patterns.propRe, Patterns.attribute, Regex.cat.
  cbn [foldr Regex.run].
  rewrite run_lit_match by reflexivity.
  unfold Patterns.ws0, Patterns.quote, Patterns.value1. cbn [Regex.run Regex.lit].
  rewrite star_stop by reflexivity.
  rewrite step_match by reflexivity.
  rewrite star_stop by reflexivity.
  rewrite step_match by reflexivity.
  erewrite star_greedy_max;
    [reflexivity | by apply keyChars_quotes | exact eq_refl | | destruct key; [done | simpl; lia]].
  rewrite step_match by reflexivity.
  rewrite capture_app. reflexivity.
Qed.

(** A literal whose characters are not the double quote either fails on
    a key followed by a double quote, or ends inside the key. *)
Lemma run_lit_key (w : string) caps k :
  allChars (fun c => negb (Regex.sameChar true c dquote)) w = true ->
  forall key s,
    allChars keyChar key = true ->
    Regex.run true (Regex.lit w) (key +:+ String dquote s) caps k = None
    \/ exists key',
         allChars keyChar key' = true
         /\ Regex.run true (Regex.lit w) (key +:+ String dquote s) caps k
            = k (key' +:+ String dquote s) caps.
Proof.
  induction w as [|c w IH]; intros Hw key s Hk.
  - right. exists key. auto.
  - apply andb_true_iff in Hw as [Hc Hw]. apply negb_true_iff in Hc.
    cbn [Regex.lit Regex.run]. destruct key as [|d key].
    + left. change ("" +:+ String dquote s) with (String dquote s).
      by rewrite step_fail.
    + apply andb_true_iff in Hk as [_ Hk].
      change (String d key +:+ String dquote s) with (String d (key +:+ String dquote s)).
      destruct (Regex.atomMatches true (Regex.Lit c) d) eqn:E.
      * rewrite step_match by exact E. by apply IH.
      * left. by rewrite step_fail.
Qed.

(** Inside the key the [content] attribute is not found: the key holds
    no [=]. *)
Lemma contentRe_not_in_key (key s : string) :
  allChars keyChar key = true ->
  Regex.matchAt true Patterns.contentRe (key +:+ String dquote s) = None.
Proof.
  intros Hk. unfold Regex.matchAt, Patterns.contentRe, Patterns.attribute, Regex.cat.
  cbn [foldr Regex.run].
  match goal with
  | |- Regex.run true (Regex.lit "content") _ ?c ?k = None =>
      destruct (run_lit_key "content" c k eq_refl key s Hk) as [H|(key' & Hk' & H)]; rewrite H; [reflexivity|]
  end.
  unfold Patterns.ws0. cbn [Regex.run Regex.lit].
  destruct key' as [|d key'].
  - change ("" +:+ String dquote s) with (String dquote s).
    rewrite star_stop by reflexivity. by rewrite step_fail.
  - apply andb_true_iff in Hk' as [Hd _]. apply keyChar_facts in Hd as (Hsp & Heq & _).
    change (String d key' +:+ String dquote s) with (String d (key' +:+ String dquote s)).
    rewrite star_stop by exact Hsp. by rewrite step_fail.
Qed.

Lemma search_key_skip (key s : string) :
  allChars keyChar key = true ->
  Regex.search true Patterns.contentRe (key +:+ String dquote s)
  = Regex.search true Patterns.contentRe (String dquote s).
Proof.
  induction key as [|c key IH]; intros Hk; [reflexivity|].
  pose proof (contentRe_not_in_key (String c key) s Hk) as H.
  change (String c key +:+ String dquote s) with (String c (key +:+ String dquote s)) in *.
  rewrite search_cons_fail by exact H.
  apply IH. by apply andb_true_iff in Hk as [_ ?].
Qed.

(** The [content] attribute is found after the key, with the value as
    its capture. *)
Lemma metaAttributes_content (key value : string) :
  allChars keyChar key = true ->
  allChars valueChar value = true ->
  match_ (metaAttributes key value) Patterns.contentRe = Some ("", {[1 := value]}).
Proof.
  intros Hk Hv. unfold match_. rewrite metaAttributes_shape.
  change ("property" +:+ ?s)
    with (String "p" (String "r" (String "o" (String "p" (String "e" (String "r"
            (String "t" (String "y" s)))))))).
  assert (Hfirst : forall c s,
            Regex.atomMatches true (Regex.Lit "c") c = false ->
            Regex.search true Patterns.contentRe (String c s)
            = Regex.search true Patterns.contentRe s).
  { intros c s H. apply search_cons_fail.
    apply (matchAt_first_fail true (Regex.Lit "c") (Regex.lit "ontent")). exact H. }
  rewrite !Hfirst by reflexivity.
  rewrite search_key_skip by exact Hk.
  rewrite !Hfirst by reflexivity.
  apply search_here.
  unfold Regex.matchAt, Patterns.contentRe, Patterns.attribute, Regex.cat.
  cbn [foldr Regex.run].
  rewrite run_lit_match by reflexivity.
  unfold Patterns.ws0, Patterns.quote, Patterns.value0. cbn [Regex.run Regex.lit].
  rewrite star_stop by reflexivity.
  rewrite step_match by reflexivity.
  rewrite star_stop by reflexivity.
  rewrite step_match by reflexivity.
  erewrite star_greedy_max;
    [reflexivity | by apply valueChars_quotes | exact eq_refl | | lia].
  rewrite step_match by reflexivity.
  rewrite capture_app. reflexivity.
Qed.

(** The loop body on the attribute text of [metaElement key value]:
    one entry, the lower-cased key with the decoded value. *)
Lemma metaBody_element (key value : string) (tags : OgTags) :
  key <> "" ->
  allChars keyChar key = true ->
  allChars valueChar value = true ->
  metaBody tags ("", {[1 := metaAttributes key value]})
  = Ok (JS.obj_set (JS.toLowerCase key) (decodeHtmlEntities value) tags).
Proof.
  intros Hne Hk Hv.
  destruct (metaAttributes_prop key value Hne Hk) as (rest & Hprop).
  pose proof (metaAttributes_content key value Hk Hv) as Hcontent.
  assert (Hlower : negb (String.eqb (JS.toLowerCase key) "") = true).
  { destruct key; [done | reflexivity]. }
  unfold metaBody, group. cbn [snd]. rewrite lookup_singleton_eq.
  cbn [defined]. change (Ok (metaAttributes key value) ≫= ?f)
    with (f (metaAttributes key value)). cbv beta.
  rewrite Hprop, Hcontent. cbn [snd]. rewrite !lookup_singleton_eq.
  cbn [defined]. change (Ok key ≫= ?f) with (f key). cbv beta.
  change (Ok (JS.toLowerCase key) ≫= ?f) with (f (JS.toLowerCase key)). cbv beta.
  rewrite Hlower. reflexivity.
Qed.

(** A page with one [<meta>] element that writes [v] under [k]. *)
Lemma parseHtml_single_meta (html k v : string) (m : Regex.state) :
  Regex.execAll true Patterns.metaRegex 0 html = [m] ->
  (forall tags, metaBody tags m = Ok (JS.obj_set k v tags)) ->
  k <> "description" -> k <> "canonical" -> k <> "favicon" -> k <> "__proto__" ->
  exists tags : OgTags, parseHtml html = Ok tags /\ tags !! k = Some v.
Proof.
  intros Hms Hbody Hd Hc Hf Hp.
  destruct (parseHtml_written html) as (tags & Hparse & _).
  exists tags. split; [exact Hparse|].
  revert Hparse. rewrite parseHtml_steps.
  destruct (titleStep html ∅) as [tags1|]; simpl; [|discriminate].
  unfold metaStep. rewrite Hms. cbn [forEach]. rewrite Hbody. simpl.
  destruct (descriptionStep html _) as [tags3|] eqn:E3; simpl; [|discriminate].
  intros [= <-].
  rewrite linkSteps_lookup by done.
  rewrite (descriptionStep_lookup _ _ _ _ Hd E3).
  unfold JS.obj_set. apply String.eqb_neq in Hp. rewrite Hp.
  apply lookup_insert_eq.
Qed.

(** X23.  A page that is one [<meta property="key" content="value">]
    element, the key without white space, quotes, [=] and [>], the value
    without quotes and [>]: the extractor returns the decoded value
    under the lower-cased key.  [description], [canonical] and [favicon]
    are left to the patterns of their own, and [__proto__] is no entry
    of an object. *)
Theorem meta_element (key value : string) :
  key <> "" ->
  allChars keyChar key = true ->
  allChars valueChar value = true ->
  JS.toLowerCase key <> "description" ->
  JS.toLowerCase key <> "canonical" ->
  JS.toLowerCase key <> "favicon" ->
  JS.toLowerCase key <> "__proto__" ->
  exists tags : OgTags,
    parseHtml (metaElement key value) = Ok tags
    /\ tags !! JS.toLowerCase key = Some (decodeHtmlEntities value).
Proof.
  intros Hne Hk Hv Hd Hc Hf Hp.
  apply (parseHtml_single_meta _ _ _ ("", {[1 := metaAttributes key value]}));
    [by apply metaElement_execAll | | done..].
  intros tags. by apply metaBody_element.
Qed.

(** ** Runs without a request *)

(** X24.  The help and the two usage errors come before any request:
    a run that ends in one of them is the same run on every network. *)
Theorem usage_errors_offline (URL_new : URL_ctor) (net net' : Network)
    (argv : list string) :
  outputs (main URL_new net argv) = [Help]
  \/ outputs (main URL_new net argv) = [UrlRequired]
  \/ (exists t, outputs (main URL_new net argv) = [InvalidUrl t]) ->
  main URL_new net' argv = main URL_new net argv.
Proof.
  unfold main. cbv zeta.
  destruct (truthyArg (parseArgs argv !! "help")); [reflexivity|].
  destruct (negb (truthyArg (parseArgs argv !! "_url"))); [reflexivity|].
  match goal with
  | |- context [match ?U with Some _ => _ | None => _ end] =>
      destruct U as [parsedUrl|]; [|reflexivity]
  end.
  destruct (checkUrl URL_new net _ _) as [result|err|err|].
  - unfold report.
    destruct (truthyArg (parseArgs argv !! "json")); simpl.
    + intros [H|[H|[t H]]]; discriminate H.
    + destruct (renderPreviews _ _ _); simpl; intros [H|[H|[t H]]]; discriminate H.
  - destruct (truthyArg (parseArgs argv !! "json")); simpl;
      intros [H|[H|[t H]]]; discriminate H.
  - destruct (truthyArg (parseArgs argv !! "json")); simpl;
      intros [H|[H|[t H]]]; discriminate H.
  - destruct (truthyArg (parseArgs argv !! "json")); simpl;
      intros [H|[H|[t H]]]; discriminate H.
Qed.

(** * The theorems at concrete inputs *)

(** C1: dimensions that do not parse, and no warning about the size. *)
Lemma unparsable_dimensions_counterexample :
  let tags : OgTags :=
    <["og:image" := "https://example.com/a.png"]>
      (<["og:image:width" := "wide"]> (<["og:image:height" := "tall"]> ∅)) in
  JS.parseInt "wide" = None /\ JS.parseInt "tall" = None
  /\ exists issues,
       validateTags Sample.URL_new tags example_page = Ok issues
       /\ ~ Exists (isWarningOn "og:image") issues.
Proof.
  intros tags. split; [reflexivity|]. split; [reflexivity|].
  eexists. split; [vm_compute; reflexivity | compute_done].
Qed.

Lemma unparsable_dimensions_no_warning_witness :
  let tags : OgTags :=
    <["og:image" := "https://example.com/a.png"]>
      (<["og:image:width" := "wide"]> (<["og:image:height" := "tall"]> ∅)) in
  match validateTags Sample.URL_new tags example_page with
  | Ok issues => Forall (fun i => ~ isWarningOn "og:image" i) issues
  | Throw _ => unresolvableImage Sample.URL_new tags example_page
  end.
Proof.
  intros tags.
  apply (unparsable_dimensions_no_warning Sample.URL_new tags example_page "wide" "tall");
    reflexivity.
Defined.

(** C3: a [title] that is present and empty, and the placeholder in the
    fix. *)
Lemma missing_og_title_counterexample :
  let tags : OgTags := {["title" := ""]} in
  tags !! "og:title" = None /\ tags !! "title" = Some ""
  /\ exists issues i,
       validateTags Sample.URL_new tags example_page = Ok issues
       /\ withTag "og:title" issues = [i]
       /\ fix_ i = metaTag "property" "og:title" "Your Page Title"
       /\ fix_ i <> metaTag "property" "og:title" "".
Proof.
  intros tags. split; [reflexivity|]. split; [reflexivity|].
  eexists _, _. split; [vm_compute; reflexivity|].
  split; [vm_compute; reflexivity|]. split; [reflexivity | discriminate].
Qed.

Lemma missing_og_title_issue_witness :
  let tags : OgTags := {["title" := "My page"]} in
  tags !! "og:title" = None
  /\ match validateTags Sample.URL_new tags example_page with
     | Ok issues =>
         withTag "og:title" issues =
         [ {| tag := "og:title";
              problem := "Missing og:title. Social platforms won't show a proper title for your link.";
              fix_ := metaTag "property" "og:title" "My page";
              severity := error |} ]
     | Throw _ => False
     end.
Proof.
  intros tags. split; [reflexivity|].
  pose proof (missing_og_title_issue Sample.URL_new tags example_page eq_refl) as H.
  destruct (validateTags Sample.URL_new tags example_page) as [issues|e] eqn:E.
  - exact H.
  - vm_compute in E. discriminate E.
Defined.

(** C4: titles of 96 and of 95 letters. *)
Lemma og_title_length_boundary_witness :
  let tags96 : OgTags := {["og:title" := Sample.letters 96]} in
  let tags95 : OgTags := {["og:title" := Sample.letters 95]} in
  (exists issues,
     validateTags Sample.URL_new tags96 example_page = Ok issues
     /\ Exists (isWarningOn "og:title") issues)
  /\ (exists issues,
        validateTags Sample.URL_new tags95 example_page = Ok issues
        /\ Forall (fun i => ~ isWarningOn "og:title" i) issues).
Proof.
  intros tags96 tags95. split.
  - pose proof (og_title_length_boundary Sample.URL_new tags96 example_page
                  (Sample.letters 96) eq_refl) as H.
    destruct (validateTags Sample.URL_new tags96 example_page) as [issues|e] eqn:E.
    + exists issues. split; [reflexivity|].
      apply Exists_exists. eexists. split; [apply H; reflexivity|].
      split; reflexivity.
    + vm_compute in E. discriminate E.
  - pose proof (og_title_length_boundary Sample.URL_new tags95 example_page
                  (Sample.letters 95) eq_refl) as H.
    destruct (validateTags Sample.URL_new tags95 example_page) as [issues|e] eqn:E.
    + exists issues. split; [reflexivity|]. apply H. vm_compute. lia.
    + vm_compute in E. discriminate E.
Defined.

(** C6: the sample constructor resolves [/local.png] as the claim
    says. *)
Lemma relative_image_issue_witness :
  let tags : OgTags := {["og:image" := "/local.png"]} in
  exists issues,
    validateTags Sample.URL_new tags "https://example.com/page" = Ok issues
    /\ {| tag := "og:image";
          problem := "og:image should be an absolute URL (starting with https://). Relative URLs won't work.";
          fix_ :=
            let quote := String (ascii_of_nat 34) EmptyString in
            "<meta property=" +:+ quote +:+ "og:image" +:+ quote
            +:+ " content=" +:+ quote +:+ "https://example.com/local.png" +:+ quote
            +:+ " />";
          severity := error |} ∈ issues.
Proof.
  intros tags.
  eapply (relative_image_issue Sample.URL_new tags); reflexivity.
Defined.

(** C5: a site with six redirects, and one with five and then a page. *)
Lemma redirect_cap_witness :
  fetchUrl Sample.URL_new (Sample.site 6 plain_html) (Some 10000%Z) "https://example.com/0"
  = Rejected (Error "Too many redirects")
  /\ fetchUrl Sample.URL_new (Sample.site 5 plain_html) (Some 10000%Z) "https://example.com/0"
     = Resolved {| statusCode := 200;
                   headers := {["content-type" := "text/html"]};
                   body := plain_html;
                   finalUrl := "https://example.com/5" |}.
Proof.
  split.
  - apply (proj1 (redirect_cap Sample.URL_new (Sample.site 6 plain_html) (Some 10000%Z)
                    "https://example.com/0") "https://example.com/6").
    sample_hop "https://example.com/1". sample_hop "https://example.com/2".
    sample_hop "https://example.com/3". sample_hop "https://example.com/4".
    sample_hop "https://example.com/5". sample_hop "https://example.com/6".
    apply chain_done.
  - apply (proj2 (redirect_cap Sample.URL_new (Sample.site 5 plain_html) (Some 10000%Z)
                    "https://example.com/0") 5 "https://example.com/5"
             [("content-type", Single "text/html")] plain_html).
    + lia.
    + sample_hop "https://example.com/1". sample_hop "https://example.com/2".
      sample_hop "https://example.com/3". sample_hop "https://example.com/4".
      sample_hop "https://example.com/5". apply chain_done.
    + vm_compute. reflexivity.
Defined.

(** C2: a page without [og:description] and one with the three required
    tags, both checked with [--ci --json]; the second still has warnings
    and suggestions. *)
Lemma validity_is_no_error_witness :
  let argv := ["https://example.com/0"; "--ci"; "--json"] in
  exitCode (main Sample.URL_new (Sample.site 2 sample_html) argv) = 1
  /\ exitCode (main Sample.URL_new (Sample.site 2 plain_html) argv) = 0.
Proof.
  intros argv. split.
  - pose (r := checkUrl Sample.URL_new (Sample.site 2 sample_html)
                 "https://example.com/0" (Some 10000%Z)).
    vm_compute in r.
    match eval cbv delta [r] in r with
    | Resolved ?x => pose (result := x)
    end.
    assert (Hrun : validationRun Sample.URL_new (Sample.site 2 sample_html) argv result)
      by reach_validation.
    apply (validity_is_no_error _ _ _ _ Hrun); [vm_compute; reflexivity|].
    compute_done.
  - pose (r := checkUrl Sample.URL_new (Sample.site 2 plain_html)
                 "https://example.com/0" (Some 10000%Z)).
    vm_compute in r.
    match eval cbv delta [r] in r with
    | Resolved ?x => pose (result := x)
    end.
    assert (Hrun : validationRun Sample.URL_new (Sample.site 2 plain_html) argv result)
      by reach_validation.
    apply (validity_is_no_error _ _ _ _ Hrun); [vm_compute; reflexivity|].
    compute_done.
Defined.

(** C10: [--timeout 500] after [--ci], and [--json] before the URL. *)
Lemma flag_consumes_next_token_witness :
  parseArgs_loop (["--ci"] ++ "--timeout" :: "500" :: ["https://example.com/"]) ∅ []
  = (<["timeout" := VStr "500"]> (<["ci" := VBool true]> ∅), ["https://example.com/"])
  /\ main Sample.URL_new (Sample.site 0 plain_html) ["--json"; "https://example.com/"]
     = {| outputs := [UrlRequired]; exitCode := 1 |}.
Proof.
  pose proof (flag_consumes_next_token Sample.URL_new (Sample.site 0 plain_html))
    as (Hloop & _ & Hmain).
  split.
  - rewrite Hloop by reflexivity. compute_done.
  - apply Hmain. reflexivity.
Defined.

(** C9: a text without markup. *)
Lemma parseHtml_total_witness : parseHtml "no markup here" = Ok ∅.
Proof. apply (proj2 (parseHtml_total "no markup here")). reflexivity. Defined.


(** X2: a complete map has no issue. *)
Lemma validator_all_good_witness :
  validateTags Sample.URL_new Sites.complete_tags example_page = Ok [].
Proof. apply validator_all_good. vm_compute. reflexivity. Defined.

(** X4: an image without a host, which [new URL] refuses. *)
Lemma validator_throws_witness :
  validateTags Sample.URL_new {["og:image" := "//"]} example_page = Throw InvalidURL.
Proof.
  apply (proj1 (validator_throws Sample.URL_new {["og:image" := "//"]} example_page)).
  split; [reflexivity|]. split; reflexivity.
Defined.

(** X7 *)
Lemma decode_without_ampersand_witness :
  decodeHtmlEntities "Tom <and> Jerry" = "Tom <and> Jerry".
Proof. apply decode_without_ampersand. reflexivity. Defined.


(** X9 *)
Lemma only_first_url_witness :
  parseArgs ["example.com"; "other.org"] = parseArgs ["example.com"]
  /\ main Sample.URL_new (Sample.site 0 plain_html) ["example.com"; "other.org"]
     = main Sample.URL_new (Sample.site 0 plain_html) ["example.com"].
Proof.
  apply (only_first_url Sample.URL_new (Sample.site 0 plain_html) "example.com" ["other.org"]).
  - reflexivity.
  - constructor; [reflexivity | constructor].
Defined.

(** X11: one redirect, and then a request that fails, or one that
    times out. *)
Lemma fetch_request_failure_witness :
  fetchUrl Sample.URL_new (Sites.ending 1 (RequestError (Error "socket hang up")))
    (Some 10000%Z) "https://example.com/0"
  = Rejected (Error "socket hang up")
  /\ fetchUrl Sample.URL_new (Sites.ending 1 RequestTimeout)
       (Some 10000%Z) "https://example.com/0"
     = Rejected (Error "Request timed out").
Proof.
  split.
  - assert (Hchain : redirectChain Sample.URL_new
                       (Sites.ending 1 (RequestError (Error "socket hang up")))
                       (Some 10000%Z) 0 "https://example.com/0" 1 "https://example.com/1").
    { sample_hop "https://example.com/1". apply chain_done. }
    apply (proj1 (fetch_request_failure _ _ _ _ _ 1 ltac:(lia) Hchain)).
    vm_compute. reflexivity.
  - assert (Hchain : redirectChain Sample.URL_new (Sites.ending 1 RequestTimeout)
                       (Some 10000%Z) 0 "https://example.com/0" 1 "https://example.com/1").
    { sample_hop "https://example.com/1". apply chain_done. }
    apply (proj2 (fetch_request_failure _ _ _ _ _ 1 ltac:(lia) Hchain)).
    vm_compute. reflexivity.
Defined.


(** X13: one redirect, and then one to [//], a reference without a
    host, which [new URL] refuses. *)
Lemma fetch_unresolvable_redirect_witness :
  fetchUrl Sample.URL_new
    (Sites.ending 1 (Incoming 302 [("location", Single "//")] ""))
    (Some 10000%Z) "https://example.com/0"
  = Uncaught InvalidURL.
Proof.
  assert (Hchain : redirectChain Sample.URL_new
                     (Sites.ending 1 (Incoming 302 [("location", Single "//")] ""))
                     (Some 10000%Z) 0 "https://example.com/0" 1 "https://example.com/1").
  { sample_hop "https://example.com/1". apply chain_done. }
  apply (fetch_unresolvable_redirect _ _ _ _ _ "//" 1 302
           [("location", Single "//")] "" ltac:(lia) Hchain).
  - vm_compute. reflexivity.
  - reflexivity.
  - reflexivity.
  - discriminate.
  - reflexivity.
  - reflexivity.
Defined.

(** X14: a request that fails, and a page whose image [new URL]
    refuses. *)
Lemma checkUrl_rejects_witness :
  let failing := Sites.ending 0 (RequestError (Error "socket hang up")) in
  let net := Sample.site 0 Sites.unresolvable_image in
  let targetUrl := "https://example.com/" in
  (fetchUrl Sample.URL_new failing (Some 10000%Z) targetUrl
   = Rejected (Error "socket hang up")
   \/ exists response tags,
        fetchUrl Sample.URL_new failing (Some 10000%Z) targetUrl = Resolved response
        /\ parseHtml (body response) = Ok tags
        /\ Error "socket hang up" = InvalidURL
        /\ unresolvableImage Sample.URL_new tags (finalUrl response))
  /\ (fetchUrl Sample.URL_new net (Some 10000%Z) targetUrl = Rejected InvalidURL
      \/ exists response tags,
           fetchUrl Sample.URL_new net (Some 10000%Z) targetUrl = Resolved response
           /\ parseHtml (body response) = Ok tags
           /\ InvalidURL = InvalidURL
           /\ unresolvableImage Sample.URL_new tags (finalUrl response)).
Proof.
  intros failing net targetUrl. split.
  - apply (checkUrl_rejects Sample.URL_new failing (Some 10000%Z) targetUrl
             (Error "socket hang up")).
    vm_compute. reflexivity.
  - apply (checkUrl_rejects Sample.URL_new net (Some 10000%Z) targetUrl InvalidURL).
    vm_compute. reflexivity.
Defined.

(** X16: a run with [--ci] that exits with 0 after its validation, and
    one whose response is cut off. *)
Lemma exit_codes_witness :
  let net := Sample.site 0 plain_html in
  let cut := Sites.ending 0 (Unfinished 200 [("content-type", Single "text/html")]) in
  let argv := ["example.com"; "--ci"] in
  (exitCode (main Sample.URL_new net argv) = 0
   /\ (outputs (main Sample.URL_new net argv) = [Help]
       \/ (exists result,
             validationRun Sample.URL_new net argv result
             /\ (truthyArg (parseArgs argv !! "ci") = true ->
                 Forall (fun i => severity i <> error) (issues result)))
       \/ pendingRun Sample.URL_new net argv))
  /\ (pendingRun Sample.URL_new cut argv
      /\ exitCode (main Sample.URL_new cut argv) = 0
      /\ (outputs (main Sample.URL_new cut argv) = []
          \/ exists fullUrl, outputs (main Sample.URL_new cut argv) = [Header fullUrl])).
Proof.
  intros net cut argv. split.
  - assert (H : exitCode (main Sample.URL_new net argv) = 0) by (vm_compute; reflexivity).
    split; [exact H|].
    exact (proj1 (proj2 (exit_codes Sample.URL_new net argv)) H).
  - assert (H : pendingRun Sample.URL_new cut argv) by reach_validation.
    split; [exact H|].
    exact (proj2 (proj2 (exit_codes Sample.URL_new cut argv)) H).
Defined.

(** X17: a run with [--json] on a page, and one whose response is cut
    off. *)
Lemma json_single_output_witness :
  let net := Sample.site 0 plain_html in
  let cut := Sites.ending 0 (Unfinished 200 [("content-type", Single "text/html")]) in
  let argv := ["--json"; "--ci"; "example.com"] in
  ((exists o,
      outputs (main Sample.URL_new net argv) = [o]
      /\ match o with
         | Help | UrlRequired | InvalidUrl _ | Json _ | JsonError _
         | UncaughtException _ => True
         | _ => False
         end)
   \/ (pendingRun Sample.URL_new net argv /\ outputs (main Sample.URL_new net argv) = []))
  /\ ((exists o,
         outputs (main Sample.URL_new cut argv) = [o]
         /\ match o with
            | Help | UrlRequired | InvalidUrl _ | Json _ | JsonError _
            | UncaughtException _ => True
            | _ => False
            end)
      \/ (pendingRun Sample.URL_new cut argv
          /\ outputs (main Sample.URL_new cut argv) = [])).
Proof.
  intros net cut argv. split.
  - apply (json_single_output Sample.URL_new net argv). vm_compute. reflexivity.
  - apply (json_single_output Sample.URL_new cut argv). vm_compute. reflexivity.
Defined.

(** X18: a text of 32 characters cut to 10. *)
Lemma truncate_fits_witness :
  truncate "Open Graph and Twitter Card tags" 10
  = JS.take (Z.to_nat (10 - 3)) "Open Graph and Twitter Card tags" +:+ "..."
  /\ Z.of_nat (String.length (truncate "Open Graph and Twitter Card tags" 10)) = 10%Z.
Proof.
  apply (truncate_fits "Open Graph and Twitter Card tags" 10); [lia|].
  vm_compute. reflexivity.
Defined.

(** X19: a map with [twitter:title] and [twitter:image] only. *)
Lemma previews_fallbacks_witness :
  let tags : OgTags :=
    <["twitter:title" := "T"]> {["twitter:image" := "https://example.com/t.png"]} in
  let title := "T" in
  let desc := "No description" in
  let image := Some "https://example.com/t.png" in
  let siteName := "example.com" in
  title <> "" /\ desc <> "" /\ image <> Some ""
  /\ title =
     (if JS.truthy (tags !! "og:title") then get tags "og:title"
      else if JS.truthy (tags !! "twitter:title") then get tags "twitter:title"
      else if JS.truthy (tags !! "title") then get tags "title"
      else "No title")
  /\ desc =
     (if JS.truthy (tags !! "og:description") then get tags "og:description"
      else if JS.truthy (tags !! "twitter:description")
           then get tags "twitter:description"
      else if JS.truthy (tags !! "description") then get tags "description"
      else "No description")
  /\ image =
     (if JS.truthy (tags !! "og:image") then Some (get tags "og:image")
      else if JS.truthy (tags !! "twitter:image") then Some (get tags "twitter:image")
      else None)
  /\ (JS.truthy (tags !! "og:site_name") = true -> siteName = get tags "og:site_name")
  /\ (JS.truthy (tags !! "og:site_name") = false ->
      exists u, Sample.URL_new example_page None = Some u /\ siteName = hostname u).
Proof.
  intros tags title desc image siteName.
  apply (previews_fallbacks Sample.URL_new tags example_page title desc siteName image).
  vm_compute. reflexivity.
Defined.

(** X20: of two elements for [og:title] the second is kept. *)
Lemma last_element_wins_witness :
  exists tags,
    parseHtml Sites.repeated_title = Ok tags
    /\ tags !! "og:title" = Some "Second & last".
Proof.
  pose (r := parseHtml Sites.repeated_title). vm_compute in r.
  match eval cbv delta [r] in r with
  | Ok ?x => pose (tags := x)
  end.
  exists tags.
  assert (Hparse : parseHtml Sites.repeated_title = Ok tags) by (vm_compute; reflexivity).
  split; [exact Hparse|].
  apply (last_element_wins Sites.repeated_title "og:title" "Second & last"
           [("<meta name='OG:Title' content='Second &amp; last'><meta name='author' content='Somebody'>",
             {[1 := "property='og:title' content='First'"]})]
           [("", {[1 := "name='author' content='Somebody'"]})]
           ("<meta name='author' content='Somebody'>",
            {[1 := "name='OG:Title' content='Second &amp; last'"]})
           tags).
  - vm_compute. reflexivity.
  - exists {["og:title" := "Second & last"]}.
    split; [vm_compute; reflexivity | reflexivity].
  - constructor; [|constructor].
    intros written H. vm_compute in H. injection H as <-. reflexivity.
  - discriminate.
  - discriminate.
  - discriminate.
  - exact Hparse.
Defined.

(** X21: the sample page, with its description, canonical link and
    icon. *)
Lemma dedicated_patterns_override_witness :
  exists tags,
    parseHtml sample_html = Ok tags
    /\ (forall m,
          orMatch (match_ sample_html Patterns.descRe1) (match_ sample_html Patterns.descRe2)
          = Some m ->
          exists d, group m 1 = Some d
            /\ tags !! "description" = Some (decodeHtmlEntities d))
    /\ (forall m,
          orMatch (match_ sample_html Patterns.canonicalRe1)
            (match_ sample_html Patterns.canonicalRe2) = Some m ->
          exists href, group m 1 = Some href /\ tags !! "canonical" = Some href)
    /\ (forall m,
          match_ sample_html Patterns.faviconRe = Some m ->
          exists href, group m 1 = Some href /\ tags !! "favicon" = Some href).
Proof.
  pose (r := parseHtml sample_html). vm_compute in r.
  match eval cbv delta [r] in r with
  | Ok ?x => pose (tags := x)
  end.
  exists tags.
  assert (Hparse : parseHtml sample_html = Ok tags) by (vm_compute; reflexivity).
  split; [exact Hparse|].
  exact (dedicated_patterns_override sample_html tags Hparse).
Defined.

(** X22: the key written for [OG:Title]. *)
Lemma keys_are_lower_case_witness :
  exists tags,
    parseHtml Sites.repeated_title = Ok tags
    /\ is_Some (tags !! "og:title")
    /\ JS.toLowerCase "og:title" = "og:title".
Proof.
  pose (r := parseHtml Sites.repeated_title). vm_compute in r.
  match eval cbv delta [r] in r with
  | Ok ?x => pose (tags := x)
  end.
  exists tags.
  assert (Hparse : parseHtml Sites.repeated_title = Ok tags) by (vm_compute; reflexivity).
  assert (Hk : is_Some (tags !! "og:title")) by (eexists; vm_compute; reflexivity).
  split; [exact Hparse|]. split; [exact Hk|].
  exact (keys_are_lower_case Sites.repeated_title "og:title" tags Hparse Hk).
Defined.

(** X23: a key in mixed case and a value with an entity. *)
Lemma meta_element_witness :
  exists tags : OgTags,
    parseHtml (metaElement "OG:Title" "Tom &amp; Jerry") = Ok tags
    /\ tags !! JS.toLowerCase "OG:Title" = Some (decodeHtmlEntities "Tom &amp; Jerry").
Proof.
  apply (meta_element "OG:Title" "Tom &amp; Jerry");
    try reflexivity; try discriminate;
    intros H; vm_compute in H; discriminate H.
Defined.

(** X24: a command line without a URL, on two networks. *)
Lemma usage_errors_offline_witness :
  main Sample.URL_new (Sites.ending 0 RequestTimeout) ["--json"]
  = main Sample.URL_new (Sample.site 0 plain_html) ["--json"].
Proof.
  apply usage_errors_offline. right. left. reflexivity.
Defined.

